(** * wheretheissat-backend: the ISS poller and its sun-exposure log

    A shallow embedding of [api.py].  The SQLite file is a record of three
    tables; every Python function that touches the database, the logger,
    the clock or [time.sleep] becomes a computation in a small
    state-and-exception monad, so that [try]/[except]/[finally] and the
    [log] decorator can be written the way the source writes them. *)

From Stdlib Require Import List String Ascii ZArith QArith Bool Lia Sorted.
Import ListNotations.
Local Open Scope string_scope.
Local Open Scope list_scope.
Local Open Scope Z_scope.

Set Implicit Arguments.

(** ** Exceptions *)

(** The exception classes the code can meet.  The first four are subclasses
    of [requests.RequestException]. *)
Inductive exn : Type :=
| ConnectionError
| Timeout
| HTTPError
| JSONDecodeError
| AssertionError
| IndexError
| IntegrityError.

Definition is_RequestException (e : exn) : bool :=
  match e with
  | ConnectionError | Timeout | HTTPError | JSONDecodeError => true
  | _ => false
  end.

(** ** Values returned by the endpoints *)

Local Unset Elimination Schemes.
Inductive json : Type :=
| JStr (s : string)
| JInt (z : Z)
| JList (l : list json)
| JDict (d : list (string * json)).
Local Set Elimination Schemes.

(** ** The database *)

(** A table with an [INTEGER PRIMARY KEY AUTOINCREMENT] column: the stored
    rows, each with its [id], and the largest id ever handed out (the
    table's entry in [sqlite_sequence]). *)
Record table (A : Type) : Type := mkTable {
  rows : list (Z * A);
  seq : Z
}.
Arguments mkTable {A} _ _.

Definition empty_table {A : Type} : table A := mkTable [] 0.

(** [iss_positions (timestamp TEXT, latitude REAL, longitude REAL)].  The
    coordinates are only stored and read back, never computed with. *)
Record position : Type := mkPosition {
  p_timestamp : string;
  p_latitude : Q;
  p_longitude : Q
}.

(** [iss_sun_exposures (timestamp TEXT, window TEXT)]. *)
Record exposure : Type := mkExposure {
  e_timestamp : string;
  e_window : string
}.

(** [polygons (uuid TEXT UNIQUE, color TEXT, wkt TEXT)]. *)
Record polygon : Type := mkPolygon {
  uuid : string;
  color : string;
  wkt : string
}.

Record database : Type := mkDatabase {
  iss_positions : table position;
  iss_sun_exposures : table exposure;
  polygons : table polygon
}.

(** [init_database] on a fresh file. *)
Definition init_database : database :=
  mkDatabase empty_table empty_table empty_table.

Module Sql.

Section Rows.
Context {A : Type}.

Fixpoint max_id (rs : list (Z * A)) : Z :=
  match rs with
  | [] => 0
  | r :: rs' => Z.max (fst r) (max_id rs')
  end.

(** The id AUTOINCREMENT gives the next row: one more than the largest
    id ever used in the table. *)
Definition next_id (t : table A) : Z :=
  Z.max (seq t) (max_id (rows t)) + 1.

(** [INSERT INTO t (...) VALUES (...)]. *)
Definition insert (a : A) (t : table A) : table A :=
  mkTable (rows t ++ [(next_id t, a)]) (next_id t).

(** [DELETE FROM t WHERE id = ?]. *)
Definition delete_id (i : Z) (t : table A) : table A :=
  mkTable (filter (fun r => negb (fst r =? i)) (rows t)) (seq t).

Fixpoint insert_sorted (r : Z * A) (rs : list (Z * A)) : list (Z * A) :=
  match rs with
  | [] => [r]
  | r' :: rs' =>
      if fst r <? fst r' then r :: r' :: rs'
      else r' :: insert_sorted r rs'
  end.

(** [ORDER BY id ASC]. *)
Definition order_by_id (rs : list (Z * A)) : list (Z * A) :=
  fold_left (fun acc r => insert_sorted r acc) rs [].

(** [ORDER BY id DESC LIMIT 1], as [cursor.fetchone()] returns it. *)
Definition order_by_id_desc_limit_1 (rs : list (Z * A)) : option (Z * A) :=
  hd_error (rev (order_by_id rs)).

End Rows.

End Sql.

(** ** The world and the monad *)

(** What the process does besides changing the database. *)
Inductive event : Type :=
| LogInfo (msg : string)
| LogError (msg : string)
| Sleep (seconds : Z).

Record world : Type := mkWorld {
  db : database;
  trace : list event
}.

Inductive result (A : Type) : Type :=
| Return (a : A)
| Raise (e : exn).
Arguments Return {A} _.
Arguments Raise {A} _.

(** A computation may change the world and then either return or raise;
    what it did before raising stays done. *)
Definition M (A : Type) : Type := world -> result A * world.

Definition ret {A : Type} (a : A) : M A := fun w => (Return a, w).

Definition raise {A : Type} (e : exn) : M A := fun w => (Raise e, w).

Definition bind {A B : Type} (m : M A) (k : A -> M B) : M B :=
  fun w =>
    match m w with
    | (Return a, w') => k a w'
    | (Raise e, w') => (Raise e, w')
    end.

Declare Scope py_scope.
Delimit Scope py_scope with py.
Notation "x <- m ;; k" := (bind m (fun x => k))
  (at level 61, m at next level, right associativity) : py_scope.
Notation "m ;; k" := (bind m (fun _ => k))
  (at level 61, right associativity) : py_scope.
Local Open Scope py_scope.

(** [try: body except: handler]. *)
Definition try_except {A : Type} (body : M A) (handler : exn -> M A) : M A :=
  fun w =>
    match body w with
    | (Return a, w') => (Return a, w')
    | (Raise e, w') => handler e w'
    end.

(** [try: body finally: final]. *)
Definition try_finally {A : Type} (body : M A) (final : M unit) : M A :=
  fun w =>
    match body w with
    | (r, w') =>
        match final w' with
        | (Return _, w'') => (r, w'')
        | (Raise e, w'') => (Raise e, w'')
        end
    end.

Definition get_db : M database := fun w => (Return (db w), w).

Definition put_db (d : database) : M unit :=
  fun w => (Return tt, mkWorld d (trace w)).

Definition emit (ev : event) : M unit :=
  fun w => (Return tt, mkWorld (db w) (trace w ++ [ev])).

Definition logger_info (msg : string) : M unit := emit (LogInfo msg).
Definition logger_error (msg : string) : M unit := emit (LogError msg).
Definition time_sleep (s : Z) : M unit := emit (Sleep s).

(** [assert c]. *)
Definition assert (c : bool) : M unit :=
  if c then ret tt else raise AssertionError.

(** [for x in xs: body], where the body updates the local variable [s]. *)
Fixpoint for_each {A S : Type} (xs : list A) (s : S) (body : A -> S -> M S)
  : M S :=
  match xs with
  | [] => ret s
  | x :: xs' => s' <- body x s ;; for_each xs' s' body
  end.

(** ** Python lists *)

Module Py.

Fixpoint range_aux (start step : Z) (count : nat) : list Z :=
  match count with
  | O => []
  | S c => start :: range_aux (start + step) step c
  end.

(** [range(start, stop, step)] for a positive step. *)
Definition range (start stop step : Z) : list Z :=
  range_aux start step (Z.to_nat ((stop - start + step - 1) / step)).

Definition len {A : Type} (l : list A) : Z := Z.of_nat (List.length l).

(** [l[i]]: a negative index counts from the end. *)
Definition getitem {A : Type} (l : list A) (i : Z) : M A :=
  let j := if i <? 0 then len l + i else i in
  if j <? 0 then raise IndexError
  else match nth_error l (Z.to_nat j) with
       | Some a => ret a
       | None => raise IndexError
       end.

End Py.

(** ** The poller: [fetch_iss_data] *)

(** The payload of the telemetry source, as the code reads it. *)
Record iss_data : Type := mkData {
  timestamp : string;
  latitude : Q;
  longitude : Q;
  visibility : string
}.

(** What one [requests.get] call meets. *)
Inductive http_outcome : Type :=
| Unreachable
| TimedOut
| Response (status_code : Z) (body : option iss_data).

Definition requests_get (o : http_outcome) : M (Z * option iss_data) :=
  match o with
  | Unreachable => raise ConnectionError
  | TimedOut => raise Timeout
  | Response s b => ret (s, b)
  end.

(** [response.raise_for_status()]: client and server error codes raise. *)
Definition raise_for_status (status : Z) : M unit :=
  if (400 <=? status) && (status <? 600) then raise HTTPError else ret tt.

(** [response.json()]. *)
Definition response_json (b : option iss_data) : M iss_data :=
  match b with
  | Some d => ret d
  | None => raise JSONDecodeError
  end.

Definition insert_position (p : position) (d : database) : database :=
  mkDatabase (Sql.insert p (iss_positions d)) (iss_sun_exposures d)
             (polygons d).

Definition insert_exposure (e : exposure) (d : database) : database :=
  mkDatabase (iss_positions d) (Sql.insert e (iss_sun_exposures d))
             (polygons d).

Definition modify_db (f : database -> database) : M unit :=
  d <- get_db ;; put_db (f d).

(** [SELECT window FROM iss_sun_exposures ORDER BY id DESC LIMIT 1]. *)
Definition select_last_window (d : database) : option string :=
  option_map (fun r => e_window (snd r))
    (Sql.order_by_id_desc_limit_1 (rows (iss_sun_exposures d))).

(** The body of the [try] block of one cycle.  Its statements run on the
    poller's own connection and are committed by the [conn.commit()] that
    ends the block; the request, the status check and the decoding come
    before the first statement, so a fetch that raises has written
    nothing.  The payload is taken with its four keys present. *)
Definition poll_body (o : http_outcome) : M unit :=
  logger_info "Fetching wheretheiss api" ;;
  response <- requests_get o ;;
  raise_for_status (fst response) ;;
  data <- response_json (snd response) ;;
  d <- get_db ;;
  let sun_exposure := select_last_window d in
  modify_db (insert_position
    (mkPosition (timestamp data) (latitude data) (longitude data))) ;;
  (if String.eqb (visibility data) "daylight" then
     if match sun_exposure with
        | None => true
        | Some w => String.eqb w "end"
        end
     then modify_db (insert_exposure (mkExposure (timestamp data) "start"))
     else ret tt
   else
     if match sun_exposure with
        | None => false
        | Some w => String.eqb w "start"
        end
     then modify_db (insert_exposure (mkExposure (timestamp data) "end"))
     else ret tt).

(** One turn of the [while True] loop. *)
Definition poll_cycle (o : http_outcome) : M unit :=
  try_finally
    (try_except (poll_body o)
       (fun e =>
          if is_RequestException e
          then logger_error "HTTPError at fetching ISS data"
          else logger_error "Unknown error at fetching ISS data"))
    (time_sleep 20).

(** The loop, run against what the network answers cycle after cycle.  An
    exception that left a cycle would end the loop. *)
Fixpoint fetch_iss_data (net : list http_outcome) : M unit :=
  match net with
  | [] => ret tt
  | o :: net' => poll_cycle o ;; fetch_iss_data net'
  end.

(** ** The shutdown hook *)

Definition shutdown_event : M unit :=
  d <- get_db ;;
  match Sql.order_by_id_desc_limit_1 (rows (iss_sun_exposures d)) with
  | Some row =>
      if String.eqb (e_window (snd row)) "start"
      then put_db (mkDatabase (iss_positions d)
                     (Sql.delete_id (fst row) (iss_sun_exposures d))
                     (polygons d))
      else ret tt
  | None => ret tt
  end.

(** ** Endpoints *)

(** The [log] decorator. *)
Definition log (name : string) (func : M json) : M json :=
  try_except
    (logger_info (String.append "Calling endpoint: " name) ;;
     result <- func ;;
     logger_info (String.append "Success calling endpoint: " name) ;;
     ret result)
    (fun _ =>
       logger_error (String.append "Error calling endpoint: " name) ;;
       ret (JDict [("message", JStr "An error occured")])).

(** [SELECT timestamp, window FROM iss_sun_exposures ORDER BY id ASC]. *)
Definition select_exposures (d : database) : list (string * string) :=
  map (fun r => (e_timestamp (snd r), e_window (snd r)))
    (Sql.order_by_id (rows (iss_sun_exposures d))).

(** [int(datetime.now().timestamp())], the clock read in microseconds since
    the epoch, which is the resolution of [datetime]: [int] drops the
    fraction of a second, towards zero. *)
Definition int_timestamp (now : Z) : Z := Z.quot now 1000000.

Definition window (start : string) (end_ : json) : json :=
  JDict [("start", JStr start); ("end", end_)].

(** The body of the [for] loop over the pairs of rows. *)
Definition pair_body (rows : list (string * string)) (i : Z)
    (result : list json) : M (list json) :=
  row <- Py.getitem rows i ;;
  next_row <- Py.getitem rows (i + 1) ;;
  assert (String.eqb (snd row) "start") ;;
  assert (String.eqb (snd next_row) "end") ;;
  ret (result ++ [window (fst row) (JStr (fst next_row))]).

(** The [if] after the loop: a last row that is a start is listed as a
    window that ends now. *)
Definition open_tail (now : Z) (rows : list (string * string))
    (result : list json) : M (list json) :=
  if negb (Py.len rows =? 0) then
    last_row <- Py.getitem rows (-1) ;;
    if String.eqb (snd last_row) "start"
    then ret (result ++ [window (fst last_row) (JInt (int_timestamp now))])
    else ret result
  else ret result.

(** The function under the decorator, up to the value it returns;
    [now] is the clock at the call. *)
Definition get_iss_sun_exposures_func (now : Z) : M json :=
  d <- get_db ;;
  let rows := select_exposures d in
  result <- for_each (Py.range 0 (Py.len rows - 1) 2) [] (pair_body rows) ;;
  result <- open_tail now rows result ;;
  ret (JDict [("sun_exposures", JList result)]).

Definition get_iss_sun_exposures (now : Z) : M json :=
  log "get_iss_sun_exposures" (get_iss_sun_exposures_func now).

(** ** The polygon store *)

(** What [shapely] tells about a parsed geometry. *)
Record geometry : Type := mkGeometry {
  is_polygon : bool;
  is_valid : bool;
  is_empty : bool;
  has_z : bool
}.

(** [INSERT INTO polygons (uuid, color, wkt) VALUES (?, ?, ?)] through
    [cud_operation]: the [UNIQUE] column refuses a uuid already stored, and
    the statement raises before anything is written or committed. *)
Definition cud_insert_polygon (p : polygon) : M Z :=
  d <- get_db ;;
  if existsb (fun r => String.eqb (uuid (snd r)) (uuid p))
       (rows (polygons d))
  then raise IntegrityError
  else
    put_db (mkDatabase (iss_positions d) (iss_sun_exposures d)
              (Sql.insert p (polygons d))) ;;
    ret 1.

Section Polygons.

(** [shapely.from_wkt]: [None] when it raises. *)
Variable from_wkt : string -> option geometry.

Definition is_valid_2d_wkt_polygon (s : string) : M bool :=
  match from_wkt s with
  | Some g =>
      if is_polygon g && is_valid g && negb (is_empty g) then
        if has_z g then ret false else ret true
      else ret false
  | None =>
      logger_error "Eror at validating polygon" ;;
      ret false
  end.

Definition post_2d_polygon_func (p : polygon) : M json :=
  ok <- is_valid_2d_wkt_polygon (wkt p) ;;
  if ok then
    n <- cud_insert_polygon p ;;
    if negb (n =? 0) then ret (JDict [("message", JStr (uuid p))])
    else ret (JDict [("message", JStr "No affected rows")])
  else ret (JDict [("message",
                    JStr "The wkt string is not a valid 2D polygon")]).

Definition post_2d_polygon (p : polygon) : M json :=
  log "post_2d_polygon" (post_2d_polygon_func p).

End Polygons.

(** ** The other endpoints *)

(** The decorator at any answer type: [error_body] is its
    [{'message': 'An error occured'}] there. *)
Definition log_as {A : Type} (error_body : A) (name : string) (func : M A)
  : M A :=
  try_except
    (logger_info (String.append "Calling endpoint: " name) ;;
     result <- func ;;
     logger_info (String.append "Success calling endpoint: " name) ;;
     ret result)
    (fun _ =>
       logger_error (String.append "Error calling endpoint: " name) ;;
       ret error_body).

Definition get_health : M json :=
  log "get_health" (ret (JDict [("status", JStr "online")])).

(** A value of the answer of [/iss/position]: a float or a string. *)
Inductive scalar : Type :=
| SFloat (q : Q)
| SStr (s : string).

(** [SELECT latitude, longitude FROM iss_positions ORDER BY id DESC
    LIMIT 1], as [fetchall] returns it. *)
Definition select_last_position (d : database) : list (Q * Q) :=
  match Sql.order_by_id_desc_limit_1 (rows (iss_positions d)) with
  | Some r => [(p_latitude (snd r), p_longitude (snd r))]
  | None => []
  end.

Definition get_iss_position_func : M (list (string * scalar)) :=
  d <- get_db ;;
  let rows := select_last_position d in
  if negb (Py.len rows =? 0) then
    row <- Py.getitem rows 0 ;;
    ret [("latitude", SFloat (fst row)); ("longitude", SFloat (snd row))]
  else ret [("message", SStr "No position data available")].

Definition get_iss_position : M (list (string * scalar)) :=
  log_as [("message", SStr "An error occured")] "get_iss_position"
    get_iss_position_func.




(** [SELECT uuid, color, wkt FROM polygons]: the table is scanned in the
    order of its ids. *)
Definition select_polygons (d : database) : list polygon :=
  map snd (Sql.order_by_id (rows (polygons d))).

(** [SELECT uuid, color, wkt FROM polygons WHERE uuid = ?]. *)
Definition select_polygons_where (u : string) (d : database) : list polygon :=
  filter (fun p => String.eqb (uuid p) u) (select_polygons d).

Definition polygon_dict (p : polygon) : json :=
  JDict [("uuid", JStr (uuid p)); ("color", JStr (color p));
         ("wkt", JStr (wkt p))].

(** [get_2d_polygons()], the listing of all polygons. *)
Definition get_2d_polygons_func : M json :=
  d <- get_db ;;
  ret (JDict [("polygons", JList (map polygon_dict (select_polygons d)))]).

Definition get_2d_polygons : M json :=
  log "get_2d_polygons" get_2d_polygons_func.

(** [get_2d_polygons(uuid)], the second function of that name, which
    serves [/2d-polygons/{uuid}]. *)
Definition get_2d_polygons_uuid_func (u : string) : M json :=
  d <- get_db ;;
  let rows := select_polygons_where u d in
  if negb (Py.len rows =? 0) then
    row <- Py.getitem rows 0 ;;
    ret (polygon_dict row)
  else ret (JDict [("message", JStr "No polygon with the given uuid exists")]).

Definition get_2d_polygons_uuid (u : string) : M json :=
  log "get_2d_polygons" (get_2d_polygons_uuid_func u).

(** ** The properties the claims speak of *)

(** The events of the sun-exposure log in insertion order: AUTOINCREMENT
    ids grow with every insertion, so this is the order of the ids. *)
Definition markers (d : database) : list string :=
  map snd (select_exposures d).

(** Markers that go start, end, start, end, ... and stop either after an
    end or after one unmatched start. *)
Inductive alternating : list string -> Prop :=
| alt_nil : alternating []
| alt_open : alternating ["start"]
| alt_pair ms : alternating ms -> alternating ("start" :: "end" :: ms).

(** The same, decided. *)
Fixpoint alternates (expect_start : bool) (ms : list string) : bool :=
  match ms with
  | [] => true
  | m :: ms' =>
      String.eqb m (if expect_start then "start" else "end")
      && alternates (negb expect_start) ms'
  end.

(** The rows of a table as AUTOINCREMENT leaves them: ids strictly
    increasing in the order of insertion. *)
Definition rowid_ordered {A : Type} (rs : list (Z * A)) : Prop :=
  StronglySorted (fun r r' => fst r < fst r') rs.

(** The log made of the closed pairs [ps]. *)
Definition events_of_pairs (ps : list (string * string))
  : list (string * string) :=
  flat_map (fun p => [(fst p, "start"); (snd p, "end")]) ps.

Definition closed_windows (ps : list (string * string)) : list json :=
  map (fun p => window (fst p) (JStr (snd p))) ps.

(** A fetch that fails in transport: source unreachable, timeout, or an
    error status. *)
Definition transport_failure (o : http_outcome) : Prop :=
  o = Unreachable \/ o = TimedOut \/
  exists s b, o = Response s b /\ 400 <= s < 600.

(** A fetch that delivers the sample [data]. *)
Definition delivers (o : http_outcome) (data : iss_data) : Prop :=
  exists s, o = Response s (Some data) /\ ~ 400 <= s < 600.

(** After a sample of visibility [v] the log is in a state in which a
    further sample of the same visibility has nothing to add. *)
Definition settled (v : string) (d : database) : Prop :=
  (v = "daylight" ->
   select_last_window d <> None /\ select_last_window d <> Some "end") /\
  (v <> "daylight" -> select_last_window d <> Some "start").

(** The position row a sample is stored as. *)
Definition position_of (data : iss_data) : position :=
  mkPosition (timestamp data) (latitude data) (longitude data).

(** What a cycle adds to the trace when the sample arrives, and when the
    request fails. *)
Definition success_trace : list event :=
  [LogInfo "Fetching wheretheiss api"; Sleep 20].

Definition failure_trace : list event :=
  [LogInfo "Fetching wheretheiss api";
   LogError "HTTPError at fetching ISS data"; Sleep 20].

(** The trace after a listing that returned. *)
Definition listing_trace (w : world) : list event :=
  trace w ++ [LogInfo "Calling endpoint: get_iss_sun_exposures";
              LogInfo "Success calling endpoint: get_iss_sun_exposures"].

(** The uuids stored in the polygon table. *)
Definition uuids (d : database) : list string :=
  map (fun r => uuid (snd r)) (rows (polygons d)).

(** The sample a fetch hands to the body of the cycle, if any. *)
Definition sample_of (o : http_outcome) : option iss_data :=
  match o with
  | Response s (Some data) =>
      if (400 <=? s) && (s <? 600) then None else Some data
  | _ => None
  end.

(** The samples a run of the poller receives, in order. *)
Definition delivered (net : list http_outcome) : list iss_data :=
  flat_map (fun o => match sample_of o with
                     | Some data => [data]
                     | None => []
                     end) net.

(** The answer to a fetch that brings [data] with status 200. *)
Definition ok (data : iss_data) : http_outcome := Response 200 (Some data).

(** A pair of neighbouring rows that is not (start, end). *)
Definition bad_pair (a b : string * string) : Prop :=
  snd a <> "start" \/ snd b <> "end".

(** What [shapely] must say of a string for the code to take it as a 2D
    polygon. *)
Definition accepted (from_wkt : string -> option geometry) (s : string)
  : Prop :=
  exists g, from_wkt s = Some g /\ is_polygon g = true /\
            is_valid g = true /\ is_empty g = false /\ has_z g = false.

(** The answer of a decorated endpoint whose function raised. *)
Definition error_body : json := JDict [("message", JStr "An error occured")].

(** ** Sample data *)

Module Examples.

Definition fresh : world := mkWorld init_database [].

Definition sample (t v : string) : iss_data :=
  mkData t (505 # 10) (-12 # 1) v.

Definition day (t : string) : http_outcome :=
  Response 200 (Some (sample t "daylight")).

Definition night (t : string) : http_outcome :=
  Response 200 (Some (sample t "eclipsed")).

(** Two samples in daylight, an outage, an error status, two samples in
    the dark and one more in daylight. *)
Definition net : list http_outcome :=
  [day "1"; day "2"; Unreachable; Response 503 None;
   night "3"; night "4"; day "5"].

Definition log_of (evs : list (string * string)) : world :=
  mkWorld
    (fold_left (fun d e => insert_exposure (mkExposure (fst e) (snd e)) d)
       evs init_database)
    [].

Definition two_pairs : world :=
  log_of [("t1", "start"); ("t2", "end"); ("t3", "start"); ("t4", "end")].

Definition pair_and_open : world :=
  log_of [("t1", "start"); ("t2", "end"); ("t3", "start")].

Definition only_open : world := log_of [("t1", "start")].

(** The first polygon of [test_api.py], stored. *)
Definition polygon1 : polygon :=
  mkPolygon "65e43aff-2265-4018-b190-448b0dbcaa97" "#f4fde2"
    "POLYGON((0 0,1 1,1 0,0 0))".

Definition shapely (s : string) : option geometry :=
  Some (mkGeometry true true false false).

Definition with_polygon1 : world :=
  mkWorld (mkDatabase empty_table empty_table
             (Sql.insert polygon1 empty_table)) [].

End Examples.

Module MoreExamples.

(** A log whose second pair is (end, start). *)
Definition broken : world :=
  Examples.log_of [("t1", "start"); ("t2", "end"); ("t3", "end");
                   ("t4", "start"); ("t5", "end")].

(** What [Examples.net] delivers before its last sample. *)
Definition earlier : list iss_data :=
  [Examples.sample "1" "daylight"; Examples.sample "2" "daylight";
   Examples.sample "3" "eclipsed"; Examples.sample "4" "eclipsed"].

(** A pass: two samples in daylight, then two in the dark. *)
Definition pass : list http_outcome :=
  map ok ((Examples.sample "1" "daylight" :: [Examples.sample "2" "daylight"])
          ++ Examples.sample "3" "eclipsed"
             :: [Examples.sample "4" "eclipsed"]).

(** A [shapely] that parses nothing. *)
Definition no_shapely (s : string) : option geometry := None.

End MoreExamples.

(** ** Facts about the tables *)

Module SqlFacts.
Import Sql.

Section Rows.
Context {A : Type}.
Implicit Types (r : Z * A) (rs : list (Z * A)) (t : table A).

Lemma max_id_bound rs : Forall (fun r => fst r <= max_id rs) rs.
Proof.
  induction rs as [|r rs IH]; constructor; cbn.
  - lia.
  - eapply Forall_impl; [|exact IH]. cbn. intros; lia.
Qed.

Lemma insert_sorted_last r rs :
  Forall (fun r' => fst r' <= fst r) rs -> insert_sorted r rs = rs ++ [r].
Proof.
  induction 1 as [|r' rs Hr' _ IH]; cbn; [reflexivity|].
  destruct (Z.ltb_spec (fst r) (fst r')); [lia|].
  now rewrite IH.
Qed.

Lemma insert_sorted_Forall (P : Z * A -> Prop) r rs :
  P r -> Forall P rs -> Forall P (insert_sorted r rs).
Proof.
  intros Hr; induction 1 as [|r' rs Hr' Hrs IH]; cbn.
  - now constructor.
  - destruct (fst r <? fst r'); repeat constructor; assumption.
Qed.

Lemma order_by_id_Forall (P : Z * A -> Prop) rs :
  Forall P rs -> Forall P (order_by_id rs).
Proof.
  unfold order_by_id. generalize (@nil (Z * A)) (@Forall_nil _ P).
  induction rs as [|r rs IH]; cbn; intros acc Hacc Hrs; [assumption|].
  inversion Hrs; subst. apply IH; [|assumption].
  now apply insert_sorted_Forall.
Qed.

Lemma order_by_id_snoc rs r :
  Forall (fun r' => fst r' <= fst r) rs ->
  order_by_id (rs ++ [r]) = order_by_id rs ++ [r].
Proof.
  intros H. unfold order_by_id. rewrite fold_left_app. cbn.
  apply insert_sorted_last. now apply order_by_id_Forall.
Qed.

(** An inserted row is read last. *)
Lemma order_by_id_insert a t :
  order_by_id (rows (insert a t)) =
  order_by_id (rows t) ++ [(next_id t, a)].
Proof.
  cbn. apply order_by_id_snoc.
  eapply Forall_impl; [|apply max_id_bound].
  unfold next_id; cbn; intros; lia.
Qed.

Lemma order_by_id_nil rs : order_by_id rs = [] -> rs = [].
Proof.
  destruct rs as [|r rs] using rev_ind; [reflexivity|].
  unfold order_by_id. rewrite fold_left_app. cbn.
  destruct (fold_left _ rs []); cbn; [discriminate|].
  destruct (fst r <? _); discriminate.
Qed.

(** Rows that already are in the order of their ids are read as they
    are stored. *)
Lemma order_by_id_ordered rs : rowid_ordered rs -> order_by_id rs = rs.
Proof.
  induction rs as [|r rs IH] using rev_ind; intros H; [reflexivity|].
  rewrite order_by_id_snoc.
  - rewrite IH; [reflexivity|].
    clear IH. induction rs as [|r' rs IH]; [constructor|].
    cbn in H. inversion H as [|? ? Hs Hf]; subst.
    constructor; [now apply IH|].
    apply Forall_app in Hf. tauto.
  - clear IH. induction rs as [|r' rs IH]; [constructor|].
    cbn in H. inversion H as [|? ? Hs Hf]; subst.
    constructor; [|now apply IH].
    apply Forall_app in Hf. destruct Hf as [_ Hf].
    inversion Hf; subst. lia.
Qed.

Lemma rowid_ordered_snoc_lt rs r :
  rowid_ordered rs -> Forall (fun r' => fst r' < fst r) rs ->
  rowid_ordered (rs ++ [r]).
Proof.
  unfold rowid_ordered. induction 1 as [|r' rs Hs IH Hf]; cbn; intros Hlt.
  - repeat constructor.
  - inversion Hlt; subst. constructor; [now apply IH|].
    apply Forall_app. split; [assumption|]. now repeat constructor.
Qed.

(** AUTOINCREMENT keeps the ids in the order of insertion. *)
Lemma insert_ordered a t :
  rowid_ordered (rows t) -> rowid_ordered (rows (insert a t)).
Proof.
  intros H. cbn. apply rowid_ordered_snoc_lt; [assumption|].
  eapply Forall_impl; [|apply max_id_bound].
  unfold next_id; cbn; intros; lia.
Qed.

Lemma delete_id_ordered i t :
  rowid_ordered (rows t) -> rowid_ordered (rows (delete_id i t)).
Proof.
  unfold rowid_ordered. cbn.
  induction 1 as [|r rs Hs IH Hf]; cbn; [constructor|].
  destruct (negb (fst r =? i)); [|assumption].
  constructor; [assumption|].
  apply Forall_forall. intros r' Hin. apply filter_In in Hin as [Hin _].
  revert r' Hin. now apply Forall_forall.
Qed.

End Rows.

End SqlFacts.

(** ** Facts about the log as it is read *)

Lemma hd_error_rev_snoc {A : Type} (l : list A) (a : A) :
  hd_error (rev (l ++ [a])) = Some a.
Proof. now rewrite rev_unit. Qed.

Lemma select_exposures_insert_exposure e d :
  select_exposures (insert_exposure e d) =
  select_exposures d ++ [(e_timestamp e, e_window e)].
Proof.
  unfold select_exposures, insert_exposure; cbn [iss_sun_exposures].
  now rewrite SqlFacts.order_by_id_insert, map_app.
Qed.

Lemma markers_insert_exposure e d :
  markers (insert_exposure e d) = markers d ++ [e_window e].
Proof.
  unfold markers. now rewrite select_exposures_insert_exposure, map_app.
Qed.

Lemma select_last_window_markers d :
  select_last_window d = hd_error (rev (markers d)).
Proof.
  unfold select_last_window, markers, select_exposures,
    Sql.order_by_id_desc_limit_1.
  rewrite map_map, <- map_rev.
  now destruct (rev _).
Qed.

Lemma select_last_window_insert_exposure e d :
  select_last_window (insert_exposure e d) = Some (e_window e).
Proof.
  now rewrite select_last_window_markers, markers_insert_exposure,
    hd_error_rev_snoc.
Qed.

Lemma select_last_window_None d :
  select_last_window d = None <-> rows (iss_sun_exposures d) = [].
Proof.
  unfold select_last_window, Sql.order_by_id_desc_limit_1. split.
  - intros H. apply SqlFacts.order_by_id_nil.
    destruct (Sql.order_by_id _) as [|r rs] using rev_ind; [reflexivity|].
    now rewrite hd_error_rev_snoc in H.
  - now intros ->.
Qed.

(** ** One cycle of the poller, case by case *)

Ltac run_py :=
  unfold poll_cycle, poll_body, try_finally, try_except, bind, modify_db,
    requests_get, raise_for_status, response_json, logger_info, logger_error,
    time_sleep, emit, get_db, put_db, ret, raise;
  cbn [fst snd db trace is_RequestException].

Lemma status_ok s :
  ~ 400 <= s < 600 -> (400 <=? s) && (s <? 600) = false.
Proof.
  intros H. destruct (Z.leb_spec 400 s), (Z.ltb_spec s 600); cbn; lia.
Qed.

Lemma status_error s :
  400 <= s < 600 -> (400 <=? s) && (s <? 600) = true.
Proof.
  intros H. destruct (Z.leb_spec 400 s), (Z.ltb_spec s 600); cbn; lia.
Qed.

Lemma app_trace (tr : list event) a b : (tr ++ [a]) ++ [b] = tr ++ [a; b].
Proof. now rewrite <- app_assoc. Qed.

(** Daylight over an empty log or after an end: a start is appended. *)
Lemma poll_cycle_start o data w :
  delivers o data ->
  visibility data = "daylight" ->
  select_last_window (db w) = None \/ select_last_window (db w) = Some "end" ->
  poll_cycle o w =
  (Return tt,
   mkWorld (insert_exposure (mkExposure (timestamp data) "start")
              (insert_position (position_of data) (db w)))
           (trace w ++ success_trace)).
Proof.
  intros (s & -> & Hs) Hv Hl. run_py.
  rewrite (status_ok Hs), Hv. cbn.
  destruct Hl as [-> | ->]; cbn; now rewrite app_trace.
Qed.

(** No daylight after a start: an end is appended. *)
Lemma poll_cycle_end o data w :
  delivers o data ->
  visibility data <> "daylight" ->
  select_last_window (db w) = Some "start" ->
  poll_cycle o w =
  (Return tt,
   mkWorld (insert_exposure (mkExposure (timestamp data) "end")
              (insert_position (position_of data) (db w)))
           (trace w ++ success_trace)).
Proof.
  intros (s & -> & Hs) Hv Hl. run_py.
  rewrite (status_ok Hs). apply String.eqb_neq in Hv. rewrite Hv. cbn.
  rewrite Hl. cbn. now rewrite app_trace.
Qed.

(** Every other sample only adds its position. *)
Lemma poll_cycle_idle o data w :
  delivers o data ->
  ~ (visibility data = "daylight" /\
     (select_last_window (db w) = None \/
      select_last_window (db w) = Some "end")) ->
  ~ (visibility data <> "daylight" /\
     select_last_window (db w) = Some "start") ->
  poll_cycle o w =
  (Return tt,
   mkWorld (insert_position (position_of data) (db w))
           (trace w ++ success_trace)).
Proof.
  intros (s & -> & Hs) Hstart Hend. run_py.
  rewrite (status_ok Hs). cbn.
  destruct (String.eqb_spec (visibility data) "daylight") as [Hv|Hv].
  - destruct (select_last_window (db w)) as [m|] eqn:Hl.
    + destruct (String.eqb_spec m "end") as [->|Hm]; [tauto|].
      cbn. now rewrite app_trace.
    + tauto.
  - destruct (select_last_window (db w)) as [m|] eqn:Hl.
    + destruct (String.eqb_spec m "start") as [->|Hm]; [tauto|].
      cbn. now rewrite app_trace.
    + cbn. now rewrite app_trace.
Qed.

(** A fetch that delivers nothing changes nothing. *)
Lemma poll_cycle_no_sample o w :
  (forall data, ~ delivers o data) ->
  poll_cycle o w = (Return tt, mkWorld (db w) (trace w ++ failure_trace)).
Proof.
  intros H. destruct o as [| |s [data|]]; run_py.
  - now rewrite !app_trace, <- app_assoc.
  - now rewrite !app_trace, <- app_assoc.
  - destruct ((400 <=? s) && (s <? 600)) eqn:Hs; cbn.
    + now rewrite !app_trace, <- app_assoc.
    + exfalso. apply (H data). exists s. split; [reflexivity|].
      intros Hr. now rewrite (status_error Hr) in Hs.
  - destruct ((400 <=? s) && (s <? 600)); cbn;
      now rewrite !app_trace, <- app_assoc.
Qed.

Lemma delivers_dec o :
  (exists data, delivers o data) \/ (forall data, ~ delivers o data).
Proof.
  destruct o as [| |s [data|]];
    try (right; intros data (s' & Ho & _); discriminate).
  destruct (Z_le_dec 400 s) as [Hlo|Hlo];
    [destruct (Z_lt_dec s 600) as [Hhi|Hhi]|].
  - right. intros data' (s' & Ho & Hs'). injection Ho as <- _. lia.
  - left. exists data, s. split; [reflexivity|lia].
  - left. exists data, s. split; [reflexivity|lia].
Qed.

Lemma transport_failure_no_sample o :
  transport_failure o -> forall data, ~ delivers o data.
Proof.
  intros [-> | [-> | (s & b & -> & Hs)]] data (s' & Ho & Hs');
    try discriminate.
  injection Ho as <- _. lia.
Qed.

(** What one cycle can do to the markers of the log. *)
Lemma poll_cycle_markers o w :
  exists w',
    poll_cycle o w = (Return tt, w') /\
    (markers (db w') = markers (db w) \/
     (markers (db w') = markers (db w) ++ ["start"] /\
      (select_last_window (db w) = None \/
       select_last_window (db w) = Some "end")) \/
     (markers (db w') = markers (db w) ++ ["end"] /\
      select_last_window (db w) = Some "start")).
Proof.
  destruct (delivers_dec o) as [(data & Hd) | Hn].
  - destruct (String.eqb_spec (visibility data) "daylight") as [Hv|Hv].
    + destruct (select_last_window (db w)) as [m|] eqn:Hl.
      * destruct (String.eqb_spec m "end") as [->|Hm].
        -- eexists; split; [apply (poll_cycle_start w Hd Hv); now right|].
           right; left. cbn [db]. rewrite markers_insert_exposure. auto.
        -- eexists; split; [apply (poll_cycle_idle w Hd)|now left].
           ++ rewrite Hl. intros (_ & [H|H]); congruence.
           ++ tauto.
      * eexists; split; [apply (poll_cycle_start w Hd Hv); now left|].
        right; left. cbn [db]. rewrite markers_insert_exposure. auto.
    + destruct (select_last_window (db w)) as [m|] eqn:Hl.
      * destruct (String.eqb_spec m "start") as [->|Hm].
        -- eexists; split; [apply (poll_cycle_end w Hd Hv Hl)|].
           right; right. cbn [db]. rewrite markers_insert_exposure. auto.
        -- eexists; split; [apply (poll_cycle_idle w Hd)|now left].
           ++ tauto.
           ++ rewrite Hl. intros (_ & H); congruence.
      * eexists; split; [apply (poll_cycle_idle w Hd)|now left].
        -- tauto.
        -- rewrite Hl. intros (_ & H); congruence.
  - eexists; split; [apply (poll_cycle_no_sample w Hn)|now left].
Qed.

(** ** Facts about alternation *)

Lemma hd_error_rev_cons {A : Type} (a b : A) (l : list A) :
  hd_error (rev (a :: b :: l)) = hd_error (rev (b :: l)).
Proof. cbn. now destruct (rev l). Qed.

Lemma alternating_snoc_start ms :
  alternating ms ->
  hd_error (rev ms) = None \/ hd_error (rev ms) = Some "end" ->
  alternating (ms ++ ["start"]).
Proof.
  induction 1 as [| |ms Hms IH]; intros Hl.
  - constructor.
  - destruct Hl; discriminate.
  - cbn. constructor. apply IH.
    destruct ms as [|m ms]; [now left|].
    now rewrite !hd_error_rev_cons in Hl.
Qed.

Lemma alternating_snoc_end ms :
  alternating ms ->
  hd_error (rev ms) = Some "start" ->
  alternating (ms ++ ["end"]).
Proof.
  induction 1 as [| |ms Hms IH]; intros Hl.
  - discriminate.
  - repeat constructor.
  - cbn. constructor. apply IH.
    destruct ms as [|m ms]; [discriminate|].
    now rewrite !hd_error_rev_cons in Hl.
Qed.

(** The marker at every position of an alternating log is fixed: starts
    at the even positions, ends at the odd ones. *)
Lemma alternating_nth ms :
  alternating ms ->
  forall i m, nth_error ms i = Some m ->
    m = if Nat.even i then "start" else "end".
Proof.
  induction 1 as [| |ms Hms IH]; intros i m Hi.
  - now destruct i.
  - destruct i as [|i]; cbn in *; [congruence|now destruct i].
  - destruct i as [|[|i]]; cbn in *; try congruence.
    now apply IH.
Qed.

Lemma alternates_alternating ms :
  alternates true ms = true -> alternating ms.
Proof.
  enough (H : (alternates true ms = true -> alternating ms) /\
              (forall m, alternates true (m :: ms) = true ->
                         alternating (m :: ms))) by apply H.
  induction ms as [|a ms [IH1 IH2]]; split.
  - constructor.
  - cbn. intros m H. rewrite andb_true_r in H.
    apply String.eqb_eq in H as ->. constructor.
  - apply IH2.
  - cbn. intros m H.
    apply andb_prop in H as [Hm H]. apply andb_prop in H as [Ha H].
    apply String.eqb_eq in Hm as ->. apply String.eqb_eq in Ha as ->.
    constructor. now apply IH1.
Qed.

(** An alternating log is a run of closed pairs, followed by at most one
    open start. *)
Lemma alternating_shape evs :
  alternating (map snd evs) ->
  exists ps,
    evs = events_of_pairs ps \/
    exists t, evs = events_of_pairs ps ++ [(t, "start")].
Proof.
  remember (map snd evs) as ms eqn:E. intros H. revert evs E.
  induction H as [| |ms Hms IH]; intros evs E.
  - destruct evs; [|discriminate]. exists []. now left.
  - destruct evs as [|[t m] [|? ?]]; try discriminate.
    cbn in E. injection E as E; subst m. exists []. right. now exists t.
  - destruct evs as [|[t1 m1] [|[t2 m2] evs]]; try discriminate.
    cbn in E. injection E as E1 E2 E; subst m1 m2.
    destruct (IH evs E) as (ps & [-> | (t & ->)]);
      exists ((t1, t2) :: ps); [now left|right; now exists t].
Qed.

(** ** The poller keeps the log alternating *)

Lemma poll_cycle_alternating o w :
  alternating (markers (db w)) ->
  exists w',
    poll_cycle o w = (Return tt, w') /\ alternating (markers (db w')).
Proof.
  intros Hw.
  destruct (poll_cycle_markers o w) as (w' & Hrun & Hm).
  exists w'. split; [assumption|].
  rewrite select_last_window_markers in Hm.
  destruct Hm as [-> | [(-> & Hl) | (-> & Hl)]].
  - assumption.
  - now apply alternating_snoc_start.
  - now apply alternating_snoc_end.
Qed.

Lemma fetch_iss_data_alternating net : forall w,
  alternating (markers (db w)) ->
  exists w',
    fetch_iss_data net w = (Return tt, w') /\ alternating (markers (db w')).
Proof.
  induction net as [|o net IH]; intros w Hw; cbn [fetch_iss_data].
  - exists w. now split.
  - destruct (poll_cycle_alternating o w Hw) as (w1 & Hrun & Hw1).
    destruct (IH w1 Hw1) as (w2 & Hrest & Hw2).
    exists w2. split; [|assumption].
    unfold bind. now rewrite Hrun.
Qed.

(** C1. Starting from a log that alternates start, end, start, end, ...
    with at most one trailing unmatched start (the empty log is one), every
    poll cycle, and so every finite run of the poller whatever the source
    answers, ends normally and leaves a log that alternates in the same
    way: in insertion order the markers at even positions are starts and
    those at odd positions are ends, so no two neighbours are of one kind
    and no end is unmatched. *)
Theorem alternation_invariant_preserved (net : list http_outcome) (w : world) :
  alternating (markers (db w)) ->
  (forall o,
     fst (poll_cycle o w) = Return tt /\
     alternating (markers (db (snd (poll_cycle o w))))) /\
  fst (fetch_iss_data net w) = Return tt /\
  alternating (markers (db (snd (fetch_iss_data net w)))) /\
  (forall i m,
     nth_error (markers (db (snd (fetch_iss_data net w)))) i = Some m ->
     m = if Nat.even i then "start" else "end").
Proof.
  intros Hw. split.
  - intros o. destruct (poll_cycle_alternating o w Hw) as (w' & -> & Hw').
    now split.
  - destruct (fetch_iss_data_alternating net w Hw) as (w' & -> & Hw').
    cbn [fst snd]. repeat split; [assumption|].
    now apply alternating_nth.
Qed.

(** ** The decision of one cycle *)

Lemma insert_neq {A : Type} (a : A) (t : table A) : Sql.insert a t <> t.
Proof.
  intros H. apply (f_equal (fun t => List.length (rows t))) in H.
  cbn in H. rewrite length_app in H. cbn in H. lia.
Qed.

Lemma insert_inj {A : Type} (a b : A) (t : table A) :
  Sql.insert a t = Sql.insert b t -> a = b.
Proof.
  intros H. apply (f_equal (@rows A)) in H. cbn in H.
  apply app_inv_head in H. congruence.
Qed.

Section Decision.
Context {A : Type} (a b : A) (t : table A) (P Q : Prop).
Hypothesis (Hab : a <> b) .

Lemma decision_first :
  P -> ~ Q ->
  (Sql.insert a t = Sql.insert a t <-> P) /\
  (Sql.insert a t = Sql.insert b t <-> Q) /\
  (Sql.insert a t = t <-> ~ P /\ ~ Q).
Proof.
  intros HP HQ. split; [tauto|]. split; split.
  - intros E. now apply insert_inj in E.
  - tauto.
  - intros E. now apply insert_neq in E.
  - tauto.
Qed.

Lemma decision_second :
  ~ P -> Q ->
  (Sql.insert b t = Sql.insert a t <-> P) /\
  (Sql.insert b t = Sql.insert b t <-> Q) /\
  (Sql.insert b t = t <-> ~ P /\ ~ Q).
Proof.
  intros HP HQ. split; [|split; [tauto|]]; split.
  - intros E. apply insert_inj in E. congruence.
  - tauto.
  - intros E. now apply insert_neq in E.
  - tauto.
Qed.

Lemma decision_none :
  ~ P -> ~ Q ->
  (t = Sql.insert a t <-> P) /\
  (t = Sql.insert b t <-> Q) /\
  (t = t <-> ~ P /\ ~ Q).
Proof.
  intros HP HQ. split; [|split; [|tauto]]; split.
  - intros E. symmetry in E. now apply insert_neq in E.
  - tauto.
  - intros E. symmetry in E. now apply insert_neq in E.
  - tauto.
Qed.

End Decision.

(** C2. On a delivered sample a cycle inserts a start row exactly when the
    visibility is daylight and the log is empty or its most recent marker
    is end; it inserts an end row exactly when the visibility is not
    daylight and the most recent marker is start; in exactly the remaining
    cases the exposure table is left as it was. *)
Theorem cycle_decision (o : http_outcome) (data : iss_data) (w : world) :
  delivers o data ->
  let t := iss_sun_exposures (db w) in
  let t' := iss_sun_exposures (db (snd (poll_cycle o w))) in
  let starts :=
    visibility data = "daylight" /\
    (rows t = [] \/ select_last_window (db w) = Some "end") in
  let ends :=
    visibility data <> "daylight" /\
    select_last_window (db w) = Some "start" in
  (t' = Sql.insert (mkExposure (timestamp data) "start") t <-> starts) /\
  (t' = Sql.insert (mkExposure (timestamp data) "end") t <-> ends) /\
  (t' = t <-> ~ starts /\ ~ ends).
Proof.
  intros Hd t t' starts ends. subst t'.
  assert (Hex : mkExposure (timestamp data) "start" <>
                mkExposure (timestamp data) "end") by discriminate.
  assert (Hempty : rows t = [] <-> select_last_window (db w) = None)
    by (symmetry; apply select_last_window_None).
  destruct (String.eqb_spec (visibility data) "daylight") as [Hv|Hv].
  - assert (Hne : ~ ends) by (unfold ends; tauto).
    destruct (select_last_window (db w)) as [m|] eqn:Hl.
    + destruct (String.eqb_spec m "end") as [->|Hm].
      * rewrite (poll_cycle_start w Hd Hv) by now right.
        apply (@decision_first _ _ _ t starts ends Hex); [|exact Hne].
        unfold starts; auto.
      * rewrite (poll_cycle_idle w Hd).
        -- apply (@decision_none _ _ _ t starts ends); [|exact Hne].
           unfold starts. rewrite Hempty.
           intros (_ & [H|H]); congruence.
        -- rewrite Hl. intros (_ & [H|H]); congruence.
        -- tauto.
    + rewrite (poll_cycle_start w Hd Hv) by now left.
      apply (@decision_first _ _ _ t starts ends Hex); [|exact Hne].
      unfold starts. rewrite Hempty. auto.
  - assert (Hns : ~ starts) by (unfold starts; tauto).
    destruct (select_last_window (db w)) as [m|] eqn:Hl.
    + destruct (String.eqb_spec m "start") as [->|Hm].
      * rewrite (poll_cycle_end w Hd Hv Hl).
        apply (@decision_second _ _ _ t starts ends Hex); [exact Hns|].
        unfold ends; auto.
      * rewrite (poll_cycle_idle w Hd).
        -- apply (@decision_none _ _ _ t starts ends); [exact Hns|].
           unfold ends. intros (_ & H); congruence.
        -- tauto.
        -- rewrite Hl. intros (_ & H); congruence.
    + rewrite (poll_cycle_idle w Hd).
      * apply (@decision_none _ _ _ t starts ends); [exact Hns|].
        unfold ends. intros (_ & H); congruence.
      * tauto.
      * rewrite Hl. intros (_ & H); congruence.
Qed.

(** ** A failed fetch *)

Ltac cycle_cases data w Hd :=
  let Hv := fresh "Hv" in
  let Hl := fresh "Hl" in
  let Hm := fresh "Hm" in
  let m := fresh "m" in
  destruct (String.eqb_spec (visibility data) "daylight") as [Hv|Hv];
  destruct (select_last_window (db w)) as [m|] eqn:Hl;
  [ destruct (String.eqb_spec m "end") as [->|Hm];
    [ rewrite (poll_cycle_start w Hd Hv) by (rewrite ?Hl; now right)
    | rewrite (poll_cycle_idle w Hd)
        by (rewrite ?Hl; intuition congruence) ]
  | rewrite (poll_cycle_start w Hd Hv) by (rewrite ?Hl; now left)
  | destruct (String.eqb_spec m "start") as [->|Hm];
    [ rewrite (poll_cycle_end w Hd Hv) by (now rewrite ?Hl)
    | rewrite (poll_cycle_idle w Hd)
        by (rewrite ?Hl; intuition congruence) ]
  | rewrite (poll_cycle_idle w Hd)
      by (rewrite ?Hl; intuition congruence) ];
  cbn [fst snd db trace].

(** Every cycle returns, and the last thing it does is sleep 20. *)
Lemma poll_cycle_sleeps o w :
  fst (poll_cycle o w) = Return tt /\
  exists tr, trace (snd (poll_cycle o w)) = tr ++ [Sleep 20].
Proof.
  destruct (delivers_dec o) as [(data & Hd) | Hn].
  - cycle_cases data w Hd; (split; [reflexivity|]);
      exists (trace w ++ [LogInfo "Fetching wheretheiss api"]);
      unfold success_trace; now rewrite <- app_assoc.
  - rewrite (poll_cycle_no_sample w Hn). cbn. split; [reflexivity|].
    exists (trace w ++ [LogInfo "Fetching wheretheiss api";
                        LogError "HTTPError at fetching ISS data"]).
    unfold failure_trace. now rewrite <- app_assoc.
Qed.

(** C3. A cycle whose fetch fails in transport (source unreachable,
    timeout, error status) leaves the position log and the exposure log,
    indeed the whole database, as they were; it does not raise, so the loop
    goes on with the next cycle; and it sleeps 20 before that, which is
    also how every other cycle ends. *)
Theorem failure_isolation (o : http_outcome) (net : list http_outcome)
    (w : world) :
  transport_failure o ->
  fst (poll_cycle o w) = Return tt /\
  db (snd (poll_cycle o w)) = db w /\
  trace (snd (poll_cycle o w)) =
    trace w ++ [LogInfo "Fetching wheretheiss api";
                LogError "HTTPError at fetching ISS data"; Sleep 20] /\
  fetch_iss_data (o :: net) w = fetch_iss_data net (snd (poll_cycle o w)) /\
  (forall o' w',
     fst (poll_cycle o' w') = Return tt /\
     exists tr, trace (snd (poll_cycle o' w')) = tr ++ [Sleep 20]).
Proof.
  intros Ho.
  pose proof (poll_cycle_no_sample w (transport_failure_no_sample Ho)) as E.
  cbn [fetch_iss_data]. unfold bind. rewrite E. cbn [fst snd db trace].
  repeat split; try reflexivity; apply poll_cycle_sleeps.
Qed.

(** ** Debouncing *)

Lemma select_last_window_insert_position p d :
  select_last_window (insert_position p d) = select_last_window d.
Proof. reflexivity. Qed.

Lemma cycle_settles o data w :
  delivers o data ->
  fst (poll_cycle o w) = Return tt /\
  settled (visibility data) (db (snd (poll_cycle o w))) /\
  exists extra,
    rows (iss_sun_exposures (db (snd (poll_cycle o w)))) =
      rows (iss_sun_exposures (db w)) ++ extra /\
    (List.length extra <= 1)%nat.
Proof.
  intros Hd. unfold settled.
  cycle_cases data w Hd;
    rewrite ?select_last_window_insert_exposure,
      ?select_last_window_insert_position, ?Hl;
    cbn [e_window]; (split; [reflexivity|]);
    (split; [split; intros; try split; congruence|]).
  1, 3, 4: eexists; split; [reflexivity|cbn; lia].
  all: exists []; rewrite app_nil_r; split; [reflexivity|cbn; lia].
Qed.

Lemma cycle_settled o data w :
  delivers o data ->
  settled (visibility data) (db w) ->
  poll_cycle o w =
  (Return tt,
   mkWorld (insert_position (position_of data) (db w))
           (trace w ++ success_trace)).
Proof.
  intros Hd [Hday Hnight]. apply (poll_cycle_idle w Hd).
  - intros (Hv & Hl). destruct (Hday Hv). tauto.
  - intros (Hv & Hl). now apply Hnight.
Qed.

Lemma fetch_iss_data_settled v net : forall w,
  Forall (fun o => exists data, delivers o data /\ visibility data = v) net ->
  settled v (db w) ->
  fst (fetch_iss_data net w) = Return tt /\
  iss_sun_exposures (db (snd (fetch_iss_data net w))) =
  iss_sun_exposures (db w).
Proof.
  induction net as [|o net IH]; intros w Hnet Hw; [now split|].
  inversion Hnet as [|? ? (data & Hd & <-) Hnet']; subst.
  cbn [fetch_iss_data]. unfold bind. rewrite (cycle_settled w Hd Hw).
  match goal with
  | |- context [fetch_iss_data net ?w1] =>
      destruct (IH w1 Hnet' Hw) as (Hret & Heq)
  end.
  split; [assumption|]. now rewrite Heq.
Qed.

(** C8. Any number of consecutive successful cycles that all see the same
    visibility run to the end and append at most one row to the exposure
    log between them. *)
Theorem debounce (v : string) (net : list http_outcome) (w : world) :
  Forall (fun o => exists data, delivers o data /\ visibility data = v) net ->
  fst (fetch_iss_data net w) = Return tt /\
  exists extra,
    rows (iss_sun_exposures (db (snd (fetch_iss_data net w)))) =
      rows (iss_sun_exposures (db w)) ++ extra /\
    (List.length extra <= 1)%nat.
Proof.
  intros Hnet. destruct net as [|o net].
  - split; [reflexivity|]. exists []. rewrite app_nil_r.
    split; [reflexivity|cbn; lia].
  - inversion Hnet as [|? ? (data & Hd & <-) Hnet']; subst.
    destruct (cycle_settles w Hd) as (Hret & Hset & extra & Hrows & Hlen).
    cbn [fetch_iss_data]. unfold bind.
    destruct (poll_cycle o w) as [r w1]. cbn [fst snd] in *. subst r.
    destruct (fetch_iss_data_settled w1 Hnet' Hset) as (Hret' & Heq).
    split; [assumption|]. exists extra. now rewrite Heq.
Qed.

(** ** Listing the windows *)

Lemma len_app {A : Type} (l l' : list A) :
  Py.len (l ++ l') = Py.len l + Py.len l'.
Proof. unfold Py.len. rewrite length_app. lia. Qed.

Lemma getitem_at {A : Type} (pre : list A) (a : A) (rest : list A) w :
  Py.getitem (pre ++ a :: rest) (Py.len pre) w = (Return a, w).
Proof.
  assert (E : (Z.of_nat (List.length pre) <? 0) = false)
    by (apply Z.ltb_ge; lia).
  unfold Py.getitem, Py.len. cbv zeta. rewrite !E.
  rewrite Nat2Z.id, nth_error_app2, Nat.sub_diag by lia.
  reflexivity.
Qed.

Lemma getitem_last {A : Type} (l : list A) (a : A) w :
  Py.getitem (l ++ [a]) (-1) w = (Return a, w).
Proof.
  unfold Py.getitem. cbn [Z.ltb Z.compare].
  rewrite len_app. replace (Py.len l + Py.len [a] + -1) with (Py.len l)
    by (unfold Py.len; cbn; lia).
  assert (E : (Py.len l <? 0) = false)
    by (apply Z.ltb_ge; unfold Py.len; lia).
  pose proof (getitem_at l a [] w) as H. unfold Py.getitem in H.
  cbv zeta in H. rewrite !E in H. now rewrite E.
Qed.

Lemma len_events ps :
  Py.len (events_of_pairs ps) = 2 * Z.of_nat (List.length ps).
Proof.
  unfold Py.len. induction ps as [|p ps IH]; [reflexivity|].
  cbn [events_of_pairs flat_map app List.length].
  fold (events_of_pairs ps). lia.
Qed.

(** The loop over a run of closed pairs yields their windows. *)
Lemma pair_loop ps : forall pre acc suffix w,
  for_each (Py.range_aux (Py.len pre) 2 (List.length ps)) acc
    (pair_body (pre ++ events_of_pairs ps ++ suffix)) w =
  (Return (acc ++ closed_windows ps), w).
Proof.
  induction ps as [|[t1 t2] ps IH]; intros pre acc suffix w.
  - cbn. now rewrite app_nil_r.
  - cbn [List.length Py.range_aux for_each events_of_pairs flat_map app
         fst snd closed_windows map].
    fold (events_of_pairs ps). fold (closed_windows ps).
    unfold bind at 1. unfold pair_body at 1. unfold bind.
    rewrite getitem_at.
    replace (pre ++ (t1, "start") :: (t2, "end") :: events_of_pairs ps ++ suffix)
      with ((pre ++ [(t1, "start")]) ++
            (t2, "end") :: events_of_pairs ps ++ suffix)
      by now rewrite <- app_assoc.
    replace (Py.len pre + 1) with (Py.len (pre ++ [(t1, "start")]))
      by (rewrite len_app; reflexivity).
    rewrite getitem_at. cbn [snd fst assert String.eqb Ascii.eqb Bool.eqb].
    unfold ret at 1 2 3.
    replace ((pre ++ [(t1, "start")]) ++
             (t2, "end") :: events_of_pairs ps ++ suffix)
      with ((pre ++ [(t1, "start"); (t2, "end")]) ++
            events_of_pairs ps ++ suffix)
      by (rewrite <- !app_assoc; reflexivity).
    replace (Py.len pre + 2)
      with (Py.len (pre ++ [(t1, "start"); (t2, "end")]))
      by (rewrite len_app; reflexivity).
    rewrite IH. now rewrite <- app_assoc.
Qed.

Lemma range_pairs n extra :
  0 <= extra <= 1 ->
  Py.range 0 (2 * Z.of_nat n + extra - 1) 2 = Py.range_aux 0 2 n.
Proof.
  intros H. unfold Py.range. f_equal.
  replace ((2 * Z.of_nat n + extra - 1 - 0 + 2 - 1) / 2) with (Z.of_nat n).
  - apply Nat2Z.id.
  - apply Z.div_unique with (r := extra); lia.
Qed.

Lemma open_tail_nil now result w :
  open_tail now [] result w = (Return result, w).
Proof. reflexivity. Qed.

Lemma open_tail_last now l t m result w :
  open_tail now (l ++ [(t, m)]) result w =
  (Return (if String.eqb m "start"
           then result ++ [window t (JInt (int_timestamp now))]
           else result), w).
Proof.
  unfold open_tail.
  assert (E : (Py.len (l ++ [(t, m)]) =? 0) = false).
  { apply Z.eqb_neq. rewrite len_app. unfold Py.len. cbn. lia. }
  rewrite E. cbn [negb]. unfold bind. rewrite getitem_last. cbn [fst snd].
  now destruct (String.eqb m "start").
Qed.

Lemma events_of_pairs_last ps :
  ps <> [] -> exists l t, events_of_pairs ps = l ++ [(t, "end")].
Proof.
  destruct ps as [|p ps] using rev_ind; [congruence|]. intros _.
  exists (events_of_pairs ps ++ [(fst p, "start")]), (snd p).
  unfold events_of_pairs. rewrite flat_map_app. cbn.
  now rewrite <- app_assoc.
Qed.

(** The listing function on a run of closed pairs followed by at most
    one more row. *)
Lemma listing_run now w ps suffix :
  select_exposures (db w) = events_of_pairs ps ++ suffix ->
  (List.length suffix <= 1)%nat ->
  get_iss_sun_exposures_func now w =
  bind (open_tail now (events_of_pairs ps ++ suffix) (closed_windows ps))
    (fun result => ret (JDict [("sun_exposures", JList result)])) w.
Proof.
  intros H Hlen. unfold get_iss_sun_exposures_func.
  unfold bind at 1. unfold get_db. cbv zeta. rewrite H.
  unfold bind at 1.
  rewrite len_app, len_events.
  rewrite range_pairs by (unfold Py.len; lia).
  pose proof (pair_loop ps [] [] suffix w) as L.
  cbn [app] in L. change (Py.len []) with 0 in L. rewrite L.
  reflexivity.
Qed.

Lemma listing_closed now w ps :
  select_exposures (db w) = events_of_pairs ps ->
  get_iss_sun_exposures_func now w =
  (Return (JDict [("sun_exposures", JList (closed_windows ps))]), w).
Proof.
  intros H. rewrite (@listing_run now w ps []).
  - rewrite app_nil_r. unfold bind.
    destruct ps as [|p ps]; [reflexivity|].
    destruct (@events_of_pairs_last (p :: ps)) as (l & t & ->);
      [discriminate|].
    now rewrite open_tail_last.
  - now rewrite app_nil_r.
  - cbn; lia.
Qed.

Lemma listing_trailing now w ps t m :
  select_exposures (db w) = events_of_pairs ps ++ [(t, m)] ->
  get_iss_sun_exposures_func now w =
  (Return (JDict [("sun_exposures",
     JList (if String.eqb m "start"
            then closed_windows ps ++ [window t (JInt (int_timestamp now))]
            else closed_windows ps))]), w).
Proof.
  intros H. rewrite (@listing_run now w ps [(t, m)]); [|assumption|cbn; lia].
  unfold bind. now rewrite open_tail_last.
Qed.

(** The decorator around a function that returns. *)
Lemma log_returns name (func : M json) r w w1 :
  func (mkWorld (db w)
          (trace w ++ [LogInfo (String.append "Calling endpoint: " name)])) =
    (Return r, w1) ->
  log name func w =
  (Return r,
   mkWorld (db w1)
     (trace w1 ++ [LogInfo (String.append "Success calling endpoint: " name)])).
Proof.
  intros H. unfold log, try_except, bind, logger_info, emit, ret.
  now rewrite H.
Qed.

(** The decorator around a function that raises: the exception is logged
    and the generic message is the answer. *)
Lemma log_raises name (func : M json) e w w1 :
  func (mkWorld (db w)
          (trace w ++ [LogInfo (String.append "Calling endpoint: " name)])) =
    (Raise e, w1) ->
  log name func w =
  (Return (JDict [("message", JStr "An error occured")]),
   mkWorld (db w1)
     (trace w1 ++ [LogError (String.append "Error calling endpoint: " name)])).
Proof.
  intros H. unfold log, try_except, bind, logger_info, logger_error, emit, ret.
  now rewrite H.
Qed.

Lemma get_iss_sun_exposures_returns now w r :
  (forall w0, db w0 = db w ->
     get_iss_sun_exposures_func now w0 = (Return r, w0)) ->
  get_iss_sun_exposures now w = (Return r, mkWorld (db w) (listing_trace w)).
Proof.
  intros H. unfold get_iss_sun_exposures.
  erewrite log_returns by (apply H; reflexivity).
  cbn [db trace]. unfold listing_trace. now rewrite <- app_assoc.
Qed.

(** C4. On a log made of consecutive (start, end) pairs the listing
    returns one closed window per pair, in the order of the log, with the
    start and end timestamps of the pair, and nothing else; the database is
    not touched. *)
Theorem reconstruction_round_trip (now : Z) (w : world)
    (ps : list (string * string)) :
  select_exposures (db w) = events_of_pairs ps ->
  get_iss_sun_exposures now w =
  (Return (JDict [("sun_exposures",
     JList (map (fun p => JDict [("start", JStr (fst p));
                                 ("end", JStr (snd p))]) ps))]),
   mkWorld (db w) (listing_trace w)).
Proof.
  intros H. apply get_iss_sun_exposures_returns.
  intros w0 E. apply listing_closed. now rewrite E.
Qed.

(** C9. On an empty exposure log the listing returns the empty sequence,
    through the normal path of the decorator and not through its error
    path. *)
Theorem empty_log_lists_nothing (now : Z) (w : world) :
  rows (iss_sun_exposures (db w)) = [] ->
  get_iss_sun_exposures now w =
  (Return (JDict [("sun_exposures", JList [])]),
   mkWorld (db w) (listing_trace w)).
Proof.
  intros H. apply get_iss_sun_exposures_returns.
  intros w0 E. apply (@listing_closed now w0 []).
  unfold select_exposures. now rewrite E, H.
Qed.

(** C5, as the code has it. On a log of closed pairs followed by an
    unmatched start at [t1] the listing returns the closed windows, whose
    two timestamps are the stored strings, and then one window from [t1] to
    the clock of the call cut down to whole seconds, a number. The end is
    computed at every call: two calls give the same answer exactly when
    their clocks show the same whole second. *)
Theorem open_window_synthesis (now : Z) (w : world)
    (ps : list (string * string)) (t1 : string) :
  select_exposures (db w) = events_of_pairs ps ++ [(t1, "start")] ->
  fst (get_iss_sun_exposures now w) =
    Return (JDict [("sun_exposures",
      JList (map (fun p => JDict [("start", JStr (fst p));
                                  ("end", JStr (snd p))]) ps ++
             [JDict [("start", JStr t1);
                     ("end", JInt (Z.quot now 1000000))]]))]) /\
  (forall now',
     fst (get_iss_sun_exposures now w) = fst (get_iss_sun_exposures now' w)
     <-> Z.quot now 1000000 = Z.quot now' 1000000).
Proof.
  intros H.
  assert (L : forall n, get_iss_sun_exposures n w =
    (Return (JDict [("sun_exposures",
       JList (closed_windows ps ++ [window t1 (JInt (int_timestamp n))]))]),
     mkWorld (db w) (listing_trace w))).
  { intros n. apply get_iss_sun_exposures_returns. intros w0 E.
    rewrite (@listing_trailing n w0 ps t1 "start") by now rewrite E.
    reflexivity. }
  split.
  - now rewrite L.
  - intros now'. rewrite !L. cbn [fst]. unfold int_timestamp. split.
    + intros E. injection E as E. apply app_inv_head in E.
      now injection E.
    + now intros ->.
Qed.

(** C5 as the claim words it fails: two calls at different times within
    one second give the same end. *)
Lemma open_window_same_second :
  ~ (forall (now1 now2 : Z) (w : world) (t1 : string),
       select_exposures (db w) = [(t1, "start")] ->
       now1 <> now2 ->
       fst (get_iss_sun_exposures now1 w) <>
       fst (get_iss_sun_exposures now2 w)).
Proof.
  intros H.
  apply (H 1700000000200000 1700000000700000
           (mkWorld (insert_exposure (mkExposure "1700000000" "start")
                       init_database) [])
           "1700000000").
  - reflexivity.
  - lia.
  - reflexivity.
Qed.

(** C7. A log whose only row is an end breaks the alternation, yet the
    listing answers as it does when there is no data at all; a log with a
    closed pair and then a second end is listed as the pair alone. Neither
    call takes the error path. *)
Theorem dangling_end_is_not_reported :
  let lone_end :=
    mkWorld (insert_exposure (mkExposure "t1" "end") init_database) [] in
  let pair_then_end :=
    mkWorld (insert_exposure (mkExposure "t3" "end")
              (insert_exposure (mkExposure "t2" "end")
                (insert_exposure (mkExposure "t1" "start") init_database)))
            [] in
  ~ alternating (markers (db lone_end)) /\
  ~ alternating (markers (db pair_then_end)) /\
  fst (get_iss_sun_exposures 0 lone_end) =
    Return (JDict [("sun_exposures", JList [])]) /\
  fst (get_iss_sun_exposures 0 lone_end) =
    fst (get_iss_sun_exposures 0 (mkWorld init_database [])) /\
  fst (get_iss_sun_exposures 0 pair_then_end) =
    Return (JDict [("sun_exposures",
      JList [JDict [("start", JStr "t1"); ("end", JStr "t2")]])]).
Proof.
  cbv zeta. repeat split; try reflexivity.
  - intros H. apply alternating_nth with (i := 0%nat) (m := "end") in H;
      [discriminate|reflexivity].
  - intros H. apply alternating_nth with (i := 2%nat) (m := "end") in H;
      [discriminate|reflexivity].
Qed.

(** ** The shutdown hook *)

Lemma list_rev_case {A : Type} (l : list A) :
  l = [] \/ exists l' a, l = l' ++ [a].
Proof.
  destruct l as [|a l'] using rev_ind; [now left|right; eauto].
Qed.

Lemma rowid_ordered_snoc {A : Type} (rs : list (Z * A)) r :
  rowid_ordered (rs ++ [r]) ->
  rowid_ordered rs /\ Forall (fun r' => fst r' < fst r) rs.
Proof.
  unfold rowid_ordered. induction rs as [|r' rs IH]; cbn; intros H.
  - split; constructor.
  - inversion H as [|? ? Hs Hf]; subst.
    destruct (IH Hs) as (Hrs & Hlt).
    apply Forall_app in Hf as (Hf1 & Hf2). inversion Hf2; subst.
    split; constructor; assumption.
Qed.

Lemma delete_last_row {A : Type} (rs : list (Z * A)) r :
  Forall (fun r' => fst r' < fst r) rs ->
  filter (fun r' => negb (fst r' =? fst r)) (rs ++ [r]) = rs.
Proof.
  intros H. rewrite filter_app. cbn. rewrite Z.eqb_refl. cbn.
  rewrite app_nil_r. induction H as [|r' rs Hr' _ IH]; [reflexivity|].
  cbn. destruct (Z.eqb_spec (fst r') (fst r)); [lia|]. cbn. now rewrite IH.
Qed.

Lemma last_row_ordered {A : Type} (rs : list (Z * A)) r :
  rowid_ordered (rs ++ [r]) ->
  Sql.order_by_id_desc_limit_1 (rs ++ [r]) = Some r.
Proof.
  intros H. unfold Sql.order_by_id_desc_limit_1.
  rewrite SqlFacts.order_by_id_ordered by assumption.
  apply hd_error_rev_snoc.
Qed.

(** A trailing start is deleted, and nothing else. *)
Lemma shutdown_deletes w rs r :
  rowid_ordered (rows (iss_sun_exposures (db w))) ->
  rows (iss_sun_exposures (db w)) = rs ++ [r] ->
  e_window (snd r) = "start" ->
  shutdown_event w =
  (Return tt,
   mkWorld (mkDatabase (iss_positions (db w))
              (mkTable rs (seq (iss_sun_exposures (db w))))
              (polygons (db w)))
           (trace w)).
Proof.
  intros Ho Hr Hs. unfold shutdown_event, bind, get_db, put_db.
  rewrite Hr in Ho. rewrite Hr, (last_row_ordered _ _ Ho), Hs. cbn.
  unfold Sql.delete_id. rewrite Hr, delete_last_row; [reflexivity|].
  now apply rowid_ordered_snoc.
Qed.

Lemma shutdown_keeps w rs r :
  rowid_ordered (rows (iss_sun_exposures (db w))) ->
  rows (iss_sun_exposures (db w)) = rs ++ [r] ->
  e_window (snd r) <> "start" ->
  shutdown_event w = (Return tt, w).
Proof.
  intros Ho Hr Hs. unfold shutdown_event, bind, get_db, put_db.
  rewrite Hr in Ho. rewrite Hr, (last_row_ordered _ _ Ho).
  apply String.eqb_neq in Hs. now rewrite Hs.
Qed.

Lemma shutdown_empty w :
  rows (iss_sun_exposures (db w)) = [] -> shutdown_event w = (Return tt, w).
Proof.
  intros Hr. unfold shutdown_event, bind, get_db. now rewrite Hr.
Qed.

Lemma select_exposures_ordered d :
  rowid_ordered (rows (iss_sun_exposures d)) ->
  select_exposures d =
  map (fun r => (e_timestamp (snd r), e_window (snd r)))
    (rows (iss_sun_exposures d)).
Proof.
  intros H. unfold select_exposures.
  now rewrite SqlFacts.order_by_id_ordered.
Qed.

(** C6. On a database whose exposure rows carry ids in the order of their
    insertion, the shutdown hook returns, never touches the positions, the
    polygons or the trace, deletes the most recent exposure row when its
    marker is start and only that row, and changes nothing at all when the
    marker is not start or the log is empty. So a log holding only
    (t1, start) lists no window after the hook has run, and on a log ending
    (t1, start), (t2, end) the hook is a no-op. *)
Theorem shutdown_reconciliation (w : world) :
  rowid_ordered (rows (iss_sun_exposures (db w))) ->
  let w' := snd (shutdown_event w) in
  fst (shutdown_event w) = Return tt /\
  iss_positions (db w') = iss_positions (db w) /\
  polygons (db w') = polygons (db w) /\
  trace w' = trace w /\
  (forall rs r,
     rows (iss_sun_exposures (db w)) = rs ++ [r] ->
     (e_window (snd r) = "start" ->
      rows (iss_sun_exposures (db w')) = rs) /\
     (e_window (snd r) <> "start" -> w' = w)) /\
  (rows (iss_sun_exposures (db w)) = [] -> w' = w) /\
  (forall now t1,
     select_exposures (db w) = [(t1, "start")] ->
     fst (get_iss_sun_exposures now w') =
     Return (JDict [("sun_exposures", JList [])])) /\
  (forall evs t1 t2,
     select_exposures (db w) = evs ++ [(t1, "start"); (t2, "end")] ->
     w' = w).
Proof.
  intros Ho w'. subst w'.
  destruct (list_rev_case (rows (iss_sun_exposures (db w))))
    as [Hr | (rs & r & Hr)].
  - rewrite (shutdown_empty w Hr). cbn [fst snd].
    do 4 (split; [reflexivity|]). split; [|split; [|split]].
    + intros rs r E. rewrite Hr in E. now destruct rs.
    + reflexivity.
    + intros now t1 E. rewrite select_exposures_ordered, Hr in E by assumption.
      discriminate.
    + reflexivity.
  - destruct (String.eqb_spec (e_window (snd r)) "start") as [Hs|Hs].
    + rewrite (@shutdown_deletes w rs r Ho Hr Hs). cbn [fst snd db trace].
      cbn [iss_positions iss_sun_exposures polygons rows].
      do 4 (split; [reflexivity|]). split; [|split; [|split]].
      * intros rs' r' E. rewrite Hr in E.
        apply app_inj_tail in E as [-> ->]. split; [reflexivity|].
        intros Hn. contradiction.
      * intros E. rewrite Hr in E. now destruct rs.
      * intros now t1 E.
        rewrite select_exposures_ordered, Hr in E by assumption.
        destruct rs as [|r0 [|r1 rs]]; try discriminate.
        match goal with
        | |- fst (get_iss_sun_exposures now ?w1) = _ =>
            rewrite (@get_iss_sun_exposures_returns now w1
                       (JDict [("sun_exposures", JList [])]))
        end; [reflexivity|].
        intros w0 E0. apply (@listing_closed now w0 []).
        unfold select_exposures. now rewrite E0.
      * intros evs t1 t2 E.
        rewrite select_exposures_ordered, Hr, map_app in E by assumption.
        change (evs ++ [(t1, "start"); (t2, "end")])
          with (evs ++ [(t1, "start")] ++ [(t2, "end")]) in E.
        rewrite app_assoc in E. apply app_inj_tail in E as [_ E].
        cbn in E. congruence.
    + rewrite (@shutdown_keeps w rs r Ho Hr Hs). cbn [fst snd].
      do 4 (split; [reflexivity|]). split; [|split; [|split]].
      * intros rs' r' E. rewrite Hr in E.
        apply app_inj_tail in E as [-> ->]. split; [|reflexivity].
        intros Hn. contradiction.
      * reflexivity.
      * intros now t1 E.
        rewrite select_exposures_ordered, Hr in E by assumption.
        destruct rs as [|r0 [|r1 rs]]; try discriminate.
        cbn in E. congruence.
      * reflexivity.
Qed.

(** ** Posting a polygon *)

Lemma stored_uuid p rs :
  existsb (fun r : Z * polygon => String.eqb (uuid (snd r)) (uuid p)) rs = true
  <-> In (uuid p) (map (fun r => uuid (snd r)) rs).
Proof.
  rewrite existsb_exists, in_map_iff. split.
  - intros (r & Hin & E). apply String.eqb_eq in E. eauto.
  - intros (r & E & Hin). exists r. split; [assumption|].
    now apply String.eqb_eq.
Qed.

Lemma cud_insert_polygon_duplicate p w :
  In (uuid p) (uuids (db w)) ->
  cud_insert_polygon p w = (Raise IntegrityError, w).
Proof.
  intros H. apply stored_uuid in H.
  unfold cud_insert_polygon, bind, get_db. now rewrite H.
Qed.

Lemma cud_insert_polygon_fresh p w :
  ~ In (uuid p) (uuids (db w)) ->
  cud_insert_polygon p w =
  (Return 1,
   mkWorld (mkDatabase (iss_positions (db w)) (iss_sun_exposures (db w))
              (Sql.insert p (polygons (db w))))
           (trace w)).
Proof.
  intros H. unfold cud_insert_polygon, bind, get_db, put_db, ret.
  destruct (existsb _ _) eqn:E; [|reflexivity].
  apply stored_uuid in E. contradiction.
Qed.

Lemma log_db name (func : M json) w :
  db (snd (log name func w)) =
  db (snd (func (mkWorld (db w)
     (trace w ++ [LogInfo (String.append "Calling endpoint: " name)])))).
Proof.
  unfold log, try_except, bind, logger_info, logger_error, emit, ret.
  now destruct (func _) as [[r|e] w1].
Qed.

Section PolygonFacts.

Variable from_wkt : string -> option geometry.

(** The validation changes the database in no case, and a string it
    accepts leaves no trace either. *)
Lemma is_valid_2d_wkt_polygon_db s w :
  exists b w',
    is_valid_2d_wkt_polygon from_wkt s w = (Return b, w') /\
    db w' = db w /\ (b = true -> w' = w).
Proof.
  unfold is_valid_2d_wkt_polygon.
  destruct (from_wkt s) as [g|].
  - destruct (is_polygon g && is_valid g && negb (is_empty g));
      [destruct (has_z g)|]; eexists; eexists; repeat split; reflexivity.
  - exists false. eexists. split; [reflexivity|]. split; [reflexivity|].
    discriminate.
Qed.

Lemma post_2d_polygon_func_duplicate p w :
  fst (is_valid_2d_wkt_polygon from_wkt (wkt p) w) = Return true ->
  In (uuid p) (uuids (db w)) ->
  post_2d_polygon_func from_wkt p w = (Raise IntegrityError, w).
Proof.
  intros Hv Hin. unfold post_2d_polygon_func, bind.
  destruct (is_valid_2d_wkt_polygon_db (wkt p) w)
    as (b & w2 & E & Hdb & Hsame).
  rewrite E in Hv |- *. cbn [fst] in Hv. injection Hv as ->.
  rewrite (Hsame eq_refl).
  now rewrite cud_insert_polygon_duplicate.
Qed.

Lemma post_2d_polygon_func_unique p w :
  NoDup (uuids (db w)) ->
  NoDup (uuids (db (snd (post_2d_polygon_func from_wkt p w)))).
Proof.
  intros Hw. unfold post_2d_polygon_func, bind.
  destruct (is_valid_2d_wkt_polygon_db (wkt p) w)
    as (b & w2 & -> & Hdb & _).
  destruct b; [|cbn; now rewrite Hdb].
  destruct (in_dec string_dec (uuid p) (uuids (db w2))) as [Hin|Hout].
  - rewrite (cud_insert_polygon_duplicate p w2 Hin). cbn.
    now rewrite Hdb.
  - rewrite (cud_insert_polygon_fresh p w2 Hout). cbn.
    unfold uuids in *. cbn. rewrite Hdb in *. rewrite map_app. cbn.
    apply NoDup_app; [assumption|repeat constructor; intros []|].
    intros u Hu [<-|[]]. contradiction.
Qed.

(** C10. Posting a polygon that the validation accepts and whose uuid
    is already stored changes nothing in the database: the insert is
    refused, the decorator catches the refusal and the answer is the
    generic error body. No post of any polygon makes two stored rows
    share a uuid. *)
Theorem post_duplicate_uuid (p : polygon) (w : world) :
  (forall w0, fst (is_valid_2d_wkt_polygon from_wkt (wkt p) w0)
              = Return true) ->
  In (uuid p) (uuids (db w)) ->
  fst (post_2d_polygon from_wkt p w) =
    Return (JDict [("message", JStr "An error occured")]) /\
  db (snd (post_2d_polygon from_wkt p w)) = db w /\
  (forall p' w',
     NoDup (uuids (db w')) ->
     NoDup (uuids (db (snd (post_2d_polygon from_wkt p' w'))))).
Proof.
  intros Hvalid Hin. unfold post_2d_polygon.
  erewrite log_raises
    by (apply post_2d_polygon_func_duplicate; [apply Hvalid|exact Hin]).
  cbn [fst snd db]. split; [reflexivity|]. split; [reflexivity|].
  intros p' w' Hw'. rewrite log_db.
  now apply post_2d_polygon_func_unique.
Qed.

End PolygonFacts.

(** ** The hook and the poller keep the ids in order *)

Lemma poll_cycle_ordered o w :
  rowid_ordered (rows (iss_sun_exposures (db w))) ->
  rowid_ordered (rows (iss_sun_exposures (db (snd (poll_cycle o w))))).
Proof.
  intros H. destruct (delivers_dec o) as [(data & Hd) | Hn].
  - cycle_cases data w Hd; try assumption;
      now apply SqlFacts.insert_ordered.
  - now rewrite (poll_cycle_no_sample w Hn).
Qed.

Lemma shutdown_event_ordered w :
  rowid_ordered (rows (iss_sun_exposures (db w))) ->
  rowid_ordered (rows (iss_sun_exposures (db (snd (shutdown_event w))))).
Proof.
  intros H. unfold shutdown_event, bind, get_db, put_db, ret. cbn [fst snd].
  destruct (Sql.order_by_id_desc_limit_1 _) as [row|]; [|assumption].
  destruct (String.eqb _ _); [|assumption].
  cbn. now apply (SqlFacts.delete_id_ordered (fst row)).
Qed.

(** ** The theorems at work *)

Lemma delivers_sample t v : delivers (Response 200 (Some (Examples.sample t v)))
                              (Examples.sample t v).
Proof. exists 200. split; [reflexivity|lia]. Qed.

Lemma alternation_invariant_preserved_witness :
  alternating (markers (db Examples.fresh)) /\
  markers (db (snd (fetch_iss_data Examples.net Examples.fresh))) =
    ["start"; "end"; "start"] /\
  alternating (markers (db (snd (fetch_iss_data Examples.net Examples.fresh)))).
Proof.
  assert (H : alternating (markers (db Examples.fresh))) by constructor.
  split; [exact H|]. split; [reflexivity|].
  exact (proj1 (proj2 (proj2
    (alternation_invariant_preserved Examples.net Examples.fresh H)))).
Defined.

Lemma cycle_decision_witness :
  delivers (Examples.day "1") (Examples.sample "1" "daylight") /\
  (iss_sun_exposures (db (snd (poll_cycle (Examples.day "1") Examples.fresh)))
   = Sql.insert (mkExposure "1" "start")
       (iss_sun_exposures (db Examples.fresh))
   <-> "daylight" = "daylight" /\
       (rows (iss_sun_exposures (db Examples.fresh)) = [] \/
        select_last_window (db Examples.fresh) = Some "end")).
Proof.
  assert (H : delivers (Examples.day "1") (Examples.sample "1" "daylight"))
    by (exists 200; split; [reflexivity|lia]).
  split; [exact H|].
  exact (proj1 (cycle_decision Examples.fresh H)).
Defined.

Lemma failure_isolation_witness :
  transport_failure Unreachable /\
  db (snd (poll_cycle Unreachable Examples.only_open)) = db Examples.only_open.
Proof.
  assert (H : transport_failure Unreachable) by (left; reflexivity).
  split; [exact H|].
  exact (proj1 (proj2 (failure_isolation Examples.net Examples.only_open H))).
Defined.

Lemma reconstruction_round_trip_witness :
  fst (get_iss_sun_exposures 0 Examples.two_pairs) =
  Return (JDict [("sun_exposures",
    JList [JDict [("start", JStr "t1"); ("end", JStr "t2")];
           JDict [("start", JStr "t3"); ("end", JStr "t4")]])]).
Proof.
  exact (f_equal fst
    (@reconstruction_round_trip 0 Examples.two_pairs
       [("t1", "t2"); ("t3", "t4")] eq_refl)).
Defined.

Lemma open_window_synthesis_witness :
  fst (get_iss_sun_exposures 1700000000200000 Examples.pair_and_open) =
  Return (JDict [("sun_exposures",
    JList [JDict [("start", JStr "t1"); ("end", JStr "t2")];
           JDict [("start", JStr "t3"); ("end", JInt 1700000000)]])]).
Proof.
  exact (proj1
    (@open_window_synthesis 1700000000200000 Examples.pair_and_open
       [("t1", "t2")] "t3" eq_refl)).
Defined.

Lemma shutdown_reconciliation_witness :
  rowid_ordered (rows (iss_sun_exposures (db Examples.only_open))) /\
  fst (get_iss_sun_exposures 0 (snd (shutdown_event Examples.only_open))) =
  Return (JDict [("sun_exposures", JList [])]).
Proof.
  assert (H : rowid_ordered
                (rows (iss_sun_exposures (db Examples.only_open))))
    by (repeat constructor).
  split; [exact H|].
  exact (proj1 (proj2 (proj2 (proj2 (proj2 (proj2 (proj2
    (shutdown_reconciliation Examples.only_open H)))))))
    0 "t1" eq_refl).
Defined.

Lemma debounce_witness :
  exists extra,
    rows (iss_sun_exposures (db (snd (fetch_iss_data
      [Examples.day "1"; Examples.day "2"; Examples.day "3"]
      Examples.fresh)))) =
    rows (iss_sun_exposures (db Examples.fresh)) ++ extra /\
    (List.length extra <= 1)%nat.
Proof.
  refine (proj2 (@debounce "daylight"
    [Examples.day "1"; Examples.day "2"; Examples.day "3"]
    Examples.fresh _)).
  repeat constructor;
    eexists; (split; [apply delivers_sample|reflexivity]).
Defined.

Lemma empty_log_lists_nothing_witness :
  fst (get_iss_sun_exposures 0 Examples.fresh) =
  Return (JDict [("sun_exposures", JList [])]).
Proof.
  exact (f_equal fst (@empty_log_lists_nothing 0 Examples.fresh eq_refl)).
Defined.

Lemma post_duplicate_uuid_witness :
  fst (post_2d_polygon Examples.shapely Examples.polygon1
         Examples.with_polygon1) =
    Return (JDict [("message", JStr "An error occured")]) /\
  db (snd (post_2d_polygon Examples.shapely Examples.polygon1
             Examples.with_polygon1)) = db Examples.with_polygon1.
Proof.
  assert (Hv : forall w0,
    fst (is_valid_2d_wkt_polygon Examples.shapely (wkt Examples.polygon1) w0)
    = Return true) by reflexivity.
  assert (Hin : In (uuid Examples.polygon1)
                  (uuids (db Examples.with_polygon1)))
    by (left; reflexivity).
  destruct (post_duplicate_uuid Examples.shapely Examples.polygon1
              Examples.with_polygon1 Hv Hin) as (H1 & H2 & _).
  split; [exact H1|exact H2].
Defined.

(** * Further properties of the code *)

(** ** The decorator *)

(** X1. A decorated endpoint never raises. If the function under the
    decorator returns, its value is the answer; if it raises anything, the
    answer is the error body; in both cases the database is the one the
    function left. [log] is the decorator at the answers made of dicts. *)
Theorem decorator_never_raises {A : Type} (err : A) (name : string)
    (func : M A) (w : world) :
  let w0 :=
    mkWorld (db w)
      (trace w ++ [LogInfo (String.append "Calling endpoint: " name)]) in
  log name = log_as error_body name /\
  fst (log_as err name func w) =
    Return (match fst (func w0) with
            | Return a => a
            | Raise _ => err
            end) /\
  db (snd (log_as err name func w)) = db (snd (func w0)).
Proof.
  cbv zeta. split; [reflexivity|].
  unfold log_as, try_except, bind, logger_info, logger_error, emit, ret.
  destruct (func _) as [[a|e] w1]; split; reflexivity.
Qed.

(** ** The position log *)

Lemma sample_of_delivers o data :
  sample_of o = Some data <-> delivers o data.
Proof.
  split.
  - destruct o as [| |s [d|]]; try discriminate. cbn.
    destruct ((400 <=? s) && (s <? 600)) eqn:E; [discriminate|].
    intros [= ->]. exists s. split; [reflexivity|].
    intros H. now rewrite (status_error H) in E.
  - intros (s & -> & Hs). cbn. now rewrite (status_ok Hs).
Qed.

Lemma sample_of_none o :
  sample_of o = None -> forall data, ~ delivers o data.
Proof.
  intros H data Hd. apply sample_of_delivers in Hd. congruence.
Qed.

Lemma fetch_iss_data_cons o net w :
  fetch_iss_data (o :: net) w = fetch_iss_data net (snd (poll_cycle o w)).
Proof.
  cbn [fetch_iss_data]. unfold bind.
  destruct (poll_cycle_sleeps o w) as (H & _).
  destruct (poll_cycle o w) as [r w1]. cbn in *. now subst r.
Qed.

Lemma fetch_iss_data_returns net : forall w,
  fst (fetch_iss_data net w) = Return tt.
Proof.
  induction net as [|o net IH]; intros w; [reflexivity|].
  rewrite fetch_iss_data_cons. apply IH.
Qed.

(** What a cycle does to the three tables. *)
Lemma poll_cycle_positions o w :
  iss_positions (db (snd (poll_cycle o w))) =
  match sample_of o with
  | Some data => Sql.insert (position_of data) (iss_positions (db w))
  | None => iss_positions (db w)
  end.
Proof.
  destruct (sample_of o) as [data|] eqn:E.
  - apply sample_of_delivers in E. cycle_cases data w E; reflexivity.
  - now rewrite (poll_cycle_no_sample w (@sample_of_none _ E)).
Qed.

Lemma poll_cycle_polygons o w :
  polygons (db (snd (poll_cycle o w))) = polygons (db w).
Proof.
  destruct (sample_of o) as [data|] eqn:E.
  - apply sample_of_delivers in E. cycle_cases data w E; reflexivity.
  - now rewrite (poll_cycle_no_sample w (@sample_of_none _ E)).
Qed.

Lemma fetch_iss_data_positions net : forall w,
  iss_positions (db (snd (fetch_iss_data net w))) =
  fold_left (fun t data => Sql.insert (position_of data) t) (delivered net)
    (iss_positions (db w)).
Proof.
  induction net as [|o net IH]; intros w; [reflexivity|].
  rewrite fetch_iss_data_cons, IH, poll_cycle_positions.
  unfold delivered. cbn [flat_map]. fold (delivered net).
  rewrite fold_left_app. now destruct (sample_of o).
Qed.



Lemma last_insert {A : Type} (a : A) (t : table A) :
  Sql.order_by_id_desc_limit_1 (rows (Sql.insert a t)) =
  Some (Sql.next_id t, a).
Proof.
  unfold Sql.order_by_id_desc_limit_1.
  now rewrite SqlFacts.order_by_id_insert, hd_error_rev_snoc.
Qed.

Lemma get_iss_position_some w r :
  Sql.order_by_id_desc_limit_1 (rows (iss_positions (db w))) = Some r ->
  get_iss_position w =
  (Return [("latitude", SFloat (p_latitude (snd r)));
           ("longitude", SFloat (p_longitude (snd r)))],
   mkWorld (db w)
     (trace w ++ [LogInfo "Calling endpoint: get_iss_position";
                  LogInfo "Success calling endpoint: get_iss_position"])).
Proof.
  intros H.
  unfold get_iss_position, get_iss_position_func, log_as, try_except, bind,
    logger_info, emit, ret, get_db, select_last_position.
  cbn [db trace]. rewrite H. cbn. now rewrite <- app_assoc.
Qed.

(** X3. After a run of the poller in which at least one sample arrived,
    [/iss/position] answers with the latitude and the longitude of the
    last sample that arrived, whatever was stored before. *)
Theorem latest_position (net : list http_outcome) (w : world)
    (earlier : list iss_data) (data : iss_data) :
  delivered net = earlier ++ [data] ->
  fst (get_iss_position (snd (fetch_iss_data net w))) =
  Return [("latitude", SFloat (latitude data));
          ("longitude", SFloat (longitude data))].
Proof.
  intros H.
  pose proof (fetch_iss_data_positions net w) as P.
  rewrite H, fold_left_app in P. cbn [fold_left] in P.
  erewrite get_iss_position_some by (rewrite P; apply last_insert).
  reflexivity.
Qed.

(** X4. With no position stored, [/iss/position] answers with its
    message and not with the error body. *)
Theorem no_position_yet (w : world) :
  rows (iss_positions (db w)) = [] ->
  fst (get_iss_position w) =
  Return [("message", SStr "No position data available")].
Proof.
  intros H.
  unfold get_iss_position, get_iss_position_func, log_as, try_except, bind,
    logger_info, emit, ret, get_db, select_last_position.
  cbn [db trace]. now rewrite H.
Qed.

(** X5. A fetch that hands over no sample writes nothing: besides the
    transport failures this covers an answer with a good status whose body
    does not decode. The cycle returns all the same. *)
Theorem no_sample_no_write (o : http_outcome) (w : world) :
  sample_of o = None ->
  fst (poll_cycle o w) = Return tt /\
  db (snd (poll_cycle o w)) = db w /\
  sample_of (Response 200 None) = None.
Proof.
  intros H. rewrite (poll_cycle_no_sample w (@sample_of_none _ H)).
  repeat split.
Qed.

(** X6. The poller never touches the polygon table, and the ids of its
    two logs stay in the order of insertion through any run. *)
Theorem poller_frame (net : list http_outcome) (w : world) :
  rowid_ordered (rows (iss_positions (db w))) ->
  rowid_ordered (rows (iss_sun_exposures (db w))) ->
  polygons (db (snd (fetch_iss_data net w))) = polygons (db w) /\
  rowid_ordered (rows (iss_positions (db (snd (fetch_iss_data net w))))) /\
  rowid_ordered (rows (iss_sun_exposures (db (snd (fetch_iss_data net w))))).
Proof.
  revert w. induction net as [|o net IH]; intros w Hp He; [now repeat split|].
  rewrite fetch_iss_data_cons.
  destruct (IH (snd (poll_cycle o w))) as (H1 & H2 & H3).
  - rewrite poll_cycle_positions. destruct (sample_of o); [|assumption].
    now apply SqlFacts.insert_ordered.
  - now apply poll_cycle_ordered.
  - rewrite H1, poll_cycle_polygons. now repeat split.
Qed.

(** ** The listing of the windows *)

(** The loop stops with the failed assertion at the first pair of rows
    that is not (start, end). *)
Lemma pair_loop_bad ps : forall pre acc a b rest c w,
  bad_pair a b ->
  for_each (Py.range_aux (Py.len pre) 2 (List.length ps + S c)) acc
    (pair_body (pre ++ events_of_pairs ps ++ a :: b :: rest)) w =
  (Raise AssertionError, w).
Proof.
  induction ps as [|[t1 t2] ps IH]; intros pre acc a b rest c w Hbad.
  - cbn [List.length Nat.add Py.range_aux for_each events_of_pairs flat_map
         app].
    unfold bind at 1. unfold pair_body at 1. unfold bind.
    rewrite getitem_at.
    replace (pre ++ a :: b :: rest) with ((pre ++ [a]) ++ b :: rest)
      by now rewrite <- app_assoc.
    replace (Py.len pre + 1) with (Py.len (pre ++ [a]))
      by (rewrite len_app; reflexivity).
    rewrite getitem_at. unfold assert.
    destruct (String.eqb_spec (snd a) "start") as [Ha|Ha];
      [|reflexivity].
    destruct (String.eqb_spec (snd b) "end") as [Hb|Hb]; [|reflexivity].
    destruct Hbad; contradiction.
  - cbn [List.length Nat.add Py.range_aux for_each events_of_pairs flat_map
         app fst snd].
    fold (events_of_pairs ps).
    unfold bind at 1. unfold pair_body at 1. unfold bind.
    rewrite getitem_at.
    replace (pre ++ (t1, "start") :: (t2, "end") ::
             events_of_pairs ps ++ a :: b :: rest)
      with ((pre ++ [(t1, "start")]) ++
            (t2, "end") :: events_of_pairs ps ++ a :: b :: rest)
      by now rewrite <- app_assoc.
    replace (Py.len pre + 1) with (Py.len (pre ++ [(t1, "start")]))
      by (rewrite len_app; reflexivity).
    rewrite getitem_at. cbn [snd fst assert String.eqb Ascii.eqb Bool.eqb].
    unfold ret at 1 2 3.
    replace ((pre ++ [(t1, "start")]) ++
             (t2, "end") :: events_of_pairs ps ++ a :: b :: rest)
      with ((pre ++ [(t1, "start"); (t2, "end")]) ++
            events_of_pairs ps ++ a :: b :: rest)
      by (rewrite <- !app_assoc; reflexivity).
    replace (Py.len pre + 2)
      with (Py.len (pre ++ [(t1, "start"); (t2, "end")]))
      by (rewrite len_app; reflexivity).
    now apply IH.
Qed.

Lemma range_covers n m :
  exists c,
    Py.range 0 (2 * Z.of_nat n + 2 + Z.of_nat m - 1) 2 =
    Py.range_aux 0 2 (n + S c).
Proof.
  unfold Py.range.
  set (k := (2 * Z.of_nat n + 2 + Z.of_nat m - 1 - 0 + 2 - 1) / 2).
  assert (Hk : Z.of_nat n + 1 <= k).
  { apply Z.div_le_lower_bound; lia. }
  exists (Z.to_nat k - (n + 1))%nat. f_equal. lia.
Qed.

(** X7. When the rows of the log, read two by two, reach a pair that is
    not (start, end), the listing answers with the error body, whatever
    the rows before and after it are, and leaves the database alone. *)
Theorem broken_pair_reported (now : Z) (w : world)
    (ps : list (string * string)) (a b : string * string)
    (rest : list (string * string)) :
  select_exposures (db w) = events_of_pairs ps ++ a :: b :: rest ->
  bad_pair a b ->
  fst (get_iss_sun_exposures now w) = Return error_body /\
  db (snd (get_iss_sun_exposures now w)) = db w.
Proof.
  intros H Hbad.
  assert (L : forall w0, db w0 = db w ->
            get_iss_sun_exposures_func now w0 = (Raise AssertionError, w0)).
  { intros w0 E. unfold get_iss_sun_exposures_func.
    unfold bind at 1. unfold get_db. cbv zeta. rewrite E, H.
    unfold bind at 1.
    rewrite len_app, len_events.
    replace (Py.len (a :: b :: rest)) with (2 + Z.of_nat (List.length rest))
      by (unfold Py.len; cbn [List.length]; lia).
    rewrite Z.add_assoc.
    destruct (range_covers (List.length ps) (List.length rest)) as (c & ->).
    pose proof (@pair_loop_bad ps [] [] a b rest c w0 Hbad) as P.
    cbn [app] in P. change (Py.len []) with 0 in P. now rewrite P. }
  unfold get_iss_sun_exposures.
  erewrite log_raises by (apply L; reflexivity).
  split; reflexivity.
Qed.

Lemma count_starts ps :
  count_occ string_dec (map snd (events_of_pairs ps)) "start" =
  List.length ps.
Proof.
  induction ps as [|p ps IH]; [reflexivity|].
  cbn [events_of_pairs flat_map app map snd].
  fold (events_of_pairs ps).
  rewrite count_occ_cons_eq by reflexivity.
  rewrite count_occ_cons_neq by discriminate. now rewrite IH.
Qed.

(** X8. On a log that alternates, the listing never takes the error
    path: it answers with a list that has one window for each start in the
    log. *)
Theorem alternating_log_is_listed (now : Z) (w : world) :
  alternating (markers (db w)) ->
  exists ws,
    fst (get_iss_sun_exposures now w) =
      Return (JDict [("sun_exposures", JList ws)]) /\
    List.length ws = count_occ string_dec (markers (db w)) "start".
Proof.
  intros H. unfold markers in *.
  destruct (alternating_shape _ H) as (ps & [E | (t & E)]).
  - exists (closed_windows ps). split.
    + erewrite get_iss_sun_exposures_returns; [reflexivity|].
      intros w0 E0. apply listing_closed. now rewrite E0.
    + rewrite E, count_starts. unfold closed_windows. apply length_map.
  - exists (closed_windows ps ++ [window t (JInt (int_timestamp now))]).
    split.
    + erewrite get_iss_sun_exposures_returns; [reflexivity|].
      intros w0 E0.
      rewrite (@listing_trailing now w0 ps t "start") by now rewrite E0.
      reflexivity.
    + rewrite E, map_app, count_occ_app, count_starts, length_app.
      unfold closed_windows. rewrite length_map. reflexivity.
Qed.

(** ** Reading changes nothing *)

Lemma pair_loop_world rows xs : forall acc w,
  snd (for_each xs acc (pair_body rows) w) = w.
Proof.
  induction xs as [|i xs IH]; intros acc w; [reflexivity|].
  cbn [for_each]. unfold bind at 1. unfold pair_body at 1.
  unfold bind, Py.getitem, assert, ret, raise.
  repeat match goal with
  | |- context [if ?c then _ else _] => destruct c
  | |- context [match nth_error ?l ?n with _ => _ end] =>
      destruct (nth_error l n)
  end; cbn [fst snd]; try reflexivity; apply IH.
Qed.

Lemma open_tail_world now rows acc w :
  snd (open_tail now rows acc w) = w.
Proof.
  unfold open_tail, bind, Py.getitem, ret, raise. cbv beta zeta.
  repeat match goal with
  | |- context [if ?c then _ else _] => destruct c
  | |- context [match nth_error ?l ?n with _ => _ end] =>
      destruct (nth_error l n)
  end; reflexivity.
Qed.

Lemma get_iss_sun_exposures_func_world now w :
  snd (get_iss_sun_exposures_func now w) = w.
Proof.
  unfold get_iss_sun_exposures_func, bind, get_db, ret. cbv beta zeta.
  pose proof (pair_loop_world (select_exposures (db w))
                (Py.range 0 (Py.len (select_exposures (db w)) - 1) 2) [] w)
    as L.
  destruct (for_each _ _ _ w) as [[acc|e] w1]; cbn [snd] in L; subst w1;
    [|reflexivity].
  pose proof (open_tail_world now (select_exposures (db w)) acc w) as T.
  destruct (open_tail _ _ _ w) as [[r|e] w2]; cbn [snd] in T; subst w2;
    reflexivity.
Qed.

(** X9. The three reading endpoints leave the database as it is, for
    every state of it and also when they answer with the error body. *)
Theorem reading_changes_nothing (now : Z) (u : string) (w : world) :
  db (snd (get_iss_sun_exposures now w)) = db w /\
  db (snd (get_iss_position w)) = db w /\
  db (snd (get_2d_polygons w)) = db w /\
  db (snd (get_2d_polygons_uuid u w)) = db w.
Proof.
  split; [|split; [|split]].
  - unfold get_iss_sun_exposures. rewrite log_db.
    now rewrite get_iss_sun_exposures_func_world.
  - unfold get_iss_position, get_iss_position_func, log_as, try_except,
      bind, logger_info, logger_error, emit, ret, get_db, Py.getitem, raise.
    repeat match goal with
    | |- context [if ?c then _ else _] => destruct c
    | |- context [match nth_error ?l ?n with _ => _ end] =>
        destruct (nth_error l n)
    end; reflexivity.
  - reflexivity.
  - unfold get_2d_polygons_uuid. rewrite log_db.
    unfold get_2d_polygons_uuid_func, bind, get_db, Py.getitem, ret, raise.
    repeat match goal with
    | |- context [if ?c then _ else _] => destruct c
    | |- context [match nth_error ?l ?n with _ => _ end] =>
        destruct (nth_error l n)
    end; reflexivity.
Qed.

(** ** The shutdown hook and the listing *)

Lemma events_last_row evs rs (r : Z * exposure) t m :
  map (fun r => (e_timestamp (snd r), e_window (snd r))) (rs ++ [r]) =
    evs ++ [(t, m)] ->
  map (fun r => (e_timestamp (snd r), e_window (snd r))) rs = evs /\
  e_window (snd r) = m.
Proof.
  rewrite map_app. cbn [map]. intros H.
  apply app_inj_tail in H as [H1 H2]. split; congruence.
Qed.

(** X10. On a log that alternates, with ids in the order of insertion,
    the shutdown hook leaves a log made of closed pairs only; so a listing
    taken after it has closed windows only, one per pair. *)
Theorem shutdown_leaves_closed_pairs (now : Z) (w : world) :
  rowid_ordered (rows (iss_sun_exposures (db w))) ->
  alternating (markers (db w)) ->
  exists ps,
    select_exposures (db (snd (shutdown_event w))) = events_of_pairs ps /\
    fst (get_iss_sun_exposures now (snd (shutdown_event w))) =
      Return (JDict [("sun_exposures", JList (closed_windows ps))]).
Proof.
  intros Ho Ha.
  enough (Hps : exists ps,
            select_exposures (db (snd (shutdown_event w))) =
            events_of_pairs ps).
  { destruct Hps as (ps & E). exists ps. split; [assumption|].
    erewrite get_iss_sun_exposures_returns; [reflexivity|].
    intros w0 E0. apply listing_closed. now rewrite E0. }
  unfold markers in Ha.
  destruct (alternating_shape _ Ha) as (ps & [E | (t & E)]);
    destruct (list_rev_case (rows (iss_sun_exposures (db w))))
      as [Hr | (rs & r & Hr)].
  - exists ps. now rewrite (shutdown_empty w Hr).
  - exists ps. rewrite (@shutdown_keeps w rs r Ho Hr); [assumption|].
    rewrite select_exposures_ordered, Hr in E by assumption.
    destruct ps as [|p ps].
    + destruct rs; discriminate.
    + destruct (@events_of_pairs_last (p :: ps)) as (l & t & El);
        [discriminate|].
      rewrite El in E. apply events_last_row in E as [_ ->]. discriminate.
  - rewrite select_exposures_ordered, Hr in E by assumption.
    destruct (events_of_pairs ps); discriminate.
  - exists ps. rewrite select_exposures_ordered, Hr in E by assumption.
    apply events_last_row in E as [E Hs].
    rewrite (@shutdown_deletes w rs r Ho Hr Hs). cbn [snd db].
    rewrite select_exposures_ordered; cbn [iss_sun_exposures rows].
    + assumption.
    + rewrite Hr in Ho. now apply rowid_ordered_snoc in Ho.
Qed.

(** ** One window per pass *)

Lemma delivers_ok data : delivers (ok data) data.
Proof. exists 200. split; [reflexivity|lia]. Qed.

Lemma select_exposures_table d d' :
  iss_sun_exposures d = iss_sun_exposures d' ->
  select_exposures d = select_exposures d'.
Proof. unfold select_exposures. now intros ->. Qed.

Lemma select_last_window_table d d' :
  iss_sun_exposures d = iss_sun_exposures d' ->
  select_last_window d = select_last_window d'.
Proof. unfold select_last_window. now intros ->. Qed.

(** Samples that have nothing to add, one after the other. *)
Lemma run_of_settled samples : forall w,
  Forall (fun data => settled (visibility data) (db w)) samples ->
  iss_sun_exposures (db (snd (fetch_iss_data (map ok samples) w))) =
  iss_sun_exposures (db w).
Proof.
  induction samples as [|data samples IH]; intros w H; [reflexivity|].
  inversion H as [|? ? Hd Hs]; subst.
  cbn [map]. rewrite fetch_iss_data_cons.
  rewrite (cycle_settled w (delivers_ok data) Hd). cbn [snd].
  rewrite IH; [reflexivity|]. exact Hs.
Qed.

(** X11. A pass through daylight is recorded as one pair. From a log
    that is empty or ends with an end, a run of samples in daylight
    followed by a run of samples not in daylight appends exactly a start
    with the timestamp of the first daylight sample and an end with the
    timestamp of the first sample after it. *)
Theorem one_pair_per_pass (d1 : iss_data) (days : list iss_data)
    (n1 : iss_data) (nights : list iss_data) (w : world) :
  Forall (fun data => visibility data = "daylight") (d1 :: days) ->
  Forall (fun data => visibility data <> "daylight") (n1 :: nights) ->
  select_last_window (db w) = None \/ select_last_window (db w) = Some "end" ->
  select_exposures
    (db (snd (fetch_iss_data (map ok ((d1 :: days) ++ n1 :: nights)) w))) =
  select_exposures (db w) ++
    [(timestamp d1, "start"); (timestamp n1, "end")].
Proof.
  intros Hdays Hnights Hl.
  inversion Hdays as [|? ? Hd1 Hdays']; subst.
  inversion Hnights as [|? ? Hn1 Hnights']; subst.
  cbn [app map]. rewrite fetch_iss_data_cons.
  rewrite (poll_cycle_start w (delivers_ok d1) Hd1 Hl). cbn [snd].
  set (w1 := mkWorld _ _).
  assert (L1 : select_last_window (db w1) = Some "start")
    by apply select_last_window_insert_exposure.
  rewrite map_app, <- (app_nil_l (map ok (n1 :: nights))).
  rewrite app_assoc, app_nil_r. cbn [map].
  assert (R : forall net w0,
    fetch_iss_data (map ok days ++ net) w0 =
    fetch_iss_data net (snd (fetch_iss_data (map ok days) w0))).
  { clear. induction days as [|d days IH]; intros net w0; [reflexivity|].
    cbn [map app]. now rewrite !fetch_iss_data_cons, IH. }
  rewrite R.
  assert (E2 : iss_sun_exposures
                 (db (snd (fetch_iss_data (map ok days) w1))) =
               iss_sun_exposures (db w1)).
  { apply run_of_settled. eapply Forall_impl; [|exact Hdays'].
    intros data Hv. unfold settled. rewrite L1, Hv.
    split; [split; discriminate|congruence]. }
  set (w2 := snd (fetch_iss_data (map ok days) w1)) in *.
  assert (L2 : select_last_window (db w2) = Some "start")
    by (rewrite (select_last_window_table _ _ E2); exact L1).
  rewrite fetch_iss_data_cons.
  rewrite (poll_cycle_end w2 (delivers_ok n1) Hn1 L2). cbn [snd].
  set (w3 := mkWorld _ _).
  assert (L3 : select_last_window (db w3) = Some "end")
    by apply select_last_window_insert_exposure.
  assert (E4 : iss_sun_exposures
                 (db (snd (fetch_iss_data (map ok nights) w3))) =
               iss_sun_exposures (db w3)).
  { apply run_of_settled. eapply Forall_impl; [|exact Hnights'].
    intros data Hv. unfold settled. rewrite L3.
    split; [contradiction|discriminate]. }
  rewrite (select_exposures_table _ _ E4). subst w3. cbn [db].
  rewrite select_exposures_insert_exposure. cbn [e_timestamp e_window].
  change (select_exposures (insert_position (position_of n1) (db w2)))
    with (select_exposures (db w2)).
  rewrite (select_exposures_table _ _ E2). subst w1. cbn [db].
  rewrite select_exposures_insert_exposure. cbn [e_timestamp e_window].
  change (select_exposures (insert_position (position_of d1) (db w)))
    with (select_exposures (db w)).
  now rewrite <- app_assoc.
Qed.

(** ** The polygon store *)










Section PolygonStore.

Variable from_wkt : string -> option geometry.

Lemma is_valid_accepted s w :
  accepted from_wkt s ->
  is_valid_2d_wkt_polygon from_wkt s w = (Return true, w).
Proof.
  intros (g & Hg & H1 & H2 & H3 & H4). unfold is_valid_2d_wkt_polygon.
  now rewrite Hg, H1, H2, H3, H4.
Qed.

Lemma is_valid_rejected s w :
  ~ accepted from_wkt s ->
  exists w',
    is_valid_2d_wkt_polygon from_wkt s w = (Return false, w') /\
    db w' = db w.
Proof.
  intros H. unfold is_valid_2d_wkt_polygon.
  destruct (from_wkt s) as [g|] eqn:Hg.
  - destruct (is_polygon g) eqn:H1, (is_valid g) eqn:H2,
      (is_empty g) eqn:H3, (has_z g) eqn:H4; cbn;
      try (eexists; split; reflexivity).
    exfalso. apply H. exists g. auto.
  - eexists. split; reflexivity.
Qed.

(** X13. The validation never raises, and it answers true exactly for
    the strings that [shapely] parses to a polygon that is valid, not
    empty and without a third coordinate. *)
Theorem validation_decides (s : string) (w : world) :
  (fst (is_valid_2d_wkt_polygon from_wkt s w) = Return true <->
   accepted from_wkt s) /\
  (fst (is_valid_2d_wkt_polygon from_wkt s w) = Return false <->
   ~ accepted from_wkt s) /\
  db (snd (is_valid_2d_wkt_polygon from_wkt s w)) = db w.
Proof.
  assert (D : accepted from_wkt s \/ ~ accepted from_wkt s).
  { unfold accepted. destruct (from_wkt s) as [g|].
    - destruct (is_polygon g) eqn:H1, (is_valid g) eqn:H2,
        (is_empty g) eqn:H3, (has_z g) eqn:H4;
        try (right; intros (g' & [= <-] & ? & ? & ? & ?); congruence).
      left. exists g. auto.
    - right. intros (g' & E & _). discriminate. }
  destruct D as [Ha|Hn].
  - rewrite (is_valid_accepted w Ha). cbn [fst snd].
    split; [split; [intros _; exact Ha|reflexivity]|].
    split; [|reflexivity].
    split; [discriminate|intros H; contradiction].
  - destruct (is_valid_rejected w Hn) as (w' & -> & Hdb). cbn [fst snd].
    split; [split; [discriminate|intros H; contradiction]|].
    split; [|exact Hdb].
    split; [intros _; exact Hn|reflexivity].
Qed.

(** X14. A post whose string the validation rejects stores nothing and
    answers that the string is not a valid 2D polygon. *)
Theorem post_rejected (p : polygon) (w : world) :
  ~ accepted from_wkt (wkt p) ->
  fst (post_2d_polygon from_wkt p w) =
    Return (JDict [("message",
                    JStr "The wkt string is not a valid 2D polygon")]) /\
  db (snd (post_2d_polygon from_wkt p w)) = db w.
Proof.
  intros Hn. unfold post_2d_polygon.
  match goal with
  | |- context [log ?name ?func w] =>
      destruct (is_valid_rejected
                  (mkWorld (db w)
                     (trace w ++
                      [LogInfo (String.append "Calling endpoint: " name)]))
                  Hn) as (w1 & E & Hdb)
  end.
  erewrite log_returns.
  2: { unfold post_2d_polygon_func, bind. rewrite E. reflexivity. }
  cbn [fst snd db]. split; [reflexivity|exact Hdb].
Qed.


End PolygonStore.

(** ** The further properties at work *)

Lemma latest_position_witness :
  fst (get_iss_position (snd (fetch_iss_data Examples.net Examples.fresh))) =
  Return [("latitude", SFloat (505 # 10)); ("longitude", SFloat (-12 # 1))].
Proof.
  exact (@latest_position Examples.net Examples.fresh MoreExamples.earlier
           (Examples.sample "5" "daylight") eq_refl).
Defined.

Lemma no_position_yet_witness :
  fst (get_iss_position Examples.fresh) =
  Return [("message", SStr "No position data available")].
Proof. exact (@no_position_yet Examples.fresh eq_refl). Defined.

Lemma no_sample_no_write_witness :
  db (snd (poll_cycle (Response 200 None) Examples.only_open)) =
  db Examples.only_open.
Proof.
  exact (proj1 (proj2
    (@no_sample_no_write (Response 200 None) Examples.only_open eq_refl))).
Defined.

Lemma poller_frame_witness :
  polygons (db (snd (fetch_iss_data Examples.net Examples.with_polygon1))) =
  polygons (db Examples.with_polygon1).
Proof.
  refine (proj1 (@poller_frame Examples.net Examples.with_polygon1 _ _));
    constructor.
Defined.

Lemma broken_pair_reported_witness :
  fst (get_iss_sun_exposures 0 MoreExamples.broken) = Return error_body.
Proof.
  refine (proj1 (@broken_pair_reported 0 MoreExamples.broken [("t1", "t2")]
                   ("t3", "end") ("t4", "start") [("t5", "end")] eq_refl _)).
  left. discriminate.
Defined.

Lemma alternating_log_is_listed_witness :
  exists ws,
    fst (get_iss_sun_exposures 0 Examples.pair_and_open) =
      Return (JDict [("sun_exposures", JList ws)]) /\
    List.length ws =
      count_occ string_dec (markers (db Examples.pair_and_open)) "start".
Proof.
  refine (@alternating_log_is_listed 0 Examples.pair_and_open _).
  apply alternates_alternating. reflexivity.
Defined.

Lemma shutdown_leaves_closed_pairs_witness :
  exists ps,
    select_exposures (db (snd (shutdown_event Examples.pair_and_open))) =
      events_of_pairs ps /\
    fst (get_iss_sun_exposures 0 (snd (shutdown_event Examples.pair_and_open)))
      = Return (JDict [("sun_exposures", JList (closed_windows ps))]).
Proof.
  refine (@shutdown_leaves_closed_pairs 0 Examples.pair_and_open _ _).
  - repeat constructor.
  - apply alternates_alternating. reflexivity.
Defined.

Lemma one_pair_per_pass_witness :
  select_exposures (db (snd (fetch_iss_data MoreExamples.pass Examples.fresh)))
  = [("1", "start"); ("3", "end")].
Proof.
  refine (@one_pair_per_pass (Examples.sample "1" "daylight")
            [Examples.sample "2" "daylight"] (Examples.sample "3" "eclipsed")
            [Examples.sample "4" "eclipsed"] Examples.fresh _ _ _).
  - repeat constructor.
  - repeat constructor; discriminate.
  - left. reflexivity.
Defined.

Lemma post_rejected_witness :
  fst (post_2d_polygon MoreExamples.no_shapely Examples.polygon1
         Examples.fresh) =
  Return (JDict [("message",
                  JStr "The wkt string is not a valid 2D polygon")]).
Proof.
  refine (proj1 (@post_rejected MoreExamples.no_shapely Examples.polygon1
                   Examples.fresh _)).
  intros (g & E & _). discriminate.
Defined.

